(** * SmartSafeMapper: the obstacle-avoidance node of [mapper.py]

    A shallow embedding of the decision logic of [SmartSafeMapper]:
    [get_safe_directions] (with its local [get_sector_min]),
    [lidar_callback] and [control_loop].

    Python's [float] is IEEE 754 binary64, which is what Rocq's primitive
    [float] is, so range samples, thresholds, speeds and the timer
    [backup_time] are primitive floats and every comparison and addition
    below is the one Python performs ([x > y] is written [y <? x] and
    [x >= y] is written [y <=? x]).  Python's [int] is [Z].  An uncaught
    Python exception is the [Raise] case of [result]. *)

From Stdlib Require Import ZArith List Bool Lia.
From Stdlib Require Import Floats.
Import ListNotations.

Set Implicit Arguments.
(* Decimal literals round to the nearest binary64 value, as Python's do. *)
Set Warnings "-inexact-float".

(** ** Exceptions *)

Inductive exn : Set :=
| ZeroDivisionError   (* [i % 0] *)
| IndexError.         (* [ranges[idx]] out of range *)

Inductive result (A : Type) : Type :=
| Ok (a : A)
| Raise (e : exn).

Arguments Ok {A} a.
Arguments Raise {A} e.

Definition bind {A B : Type} (r : result A) (k : A -> result B) : result B :=
  match r with
  | Ok a => k a
  | Raise e => Raise e
  end.

Notation "x <- r ;; k" := (bind r (fun x => k))
  (at level 61, r at next level, right associativity).

(** [[f(i) for i in l]] for an [f] that may raise: the first failure aborts. *)
Fixpoint comprehension {A B : Type} (f : A -> result B) (l : list A)
  : result (list B) :=
  match l with
  | [] => Ok []
  | a :: t => b <- f a ;; bs <- comprehension f t ;; Ok (b :: bs)
  end.

(** ** Python integer and list primitives *)

(** [i % n] on [int]: floor modulo, [ZeroDivisionError] when [n] is 0. *)
Definition py_mod (i n : Z) : result Z :=
  if (n =? 0)%Z then Raise ZeroDivisionError else Ok (i mod n)%Z.

(** [range(lo, hi)] for naturals [lo <= hi], as a list of [int]. *)
Definition py_range (lo hi : nat) : list Z :=
  map Z.of_nat (seq lo (hi - lo)).

(** [len(l)]. *)
Definition len {A : Type} (l : list A) : Z := Z.of_nat (length l).

(** [l[idx]]: a negative index counts from the end; [IndexError] outside
    [-len(l) <= idx < len(l)]. *)
Definition py_index {A : Type} (l : list A) (idx : Z) : result A :=
  let pos := if (idx <? 0)%Z then (len l + idx)%Z else idx in
  if (pos <? 0)%Z then Raise IndexError
  else match nth_error l (Z.to_nat pos) with
       | Some a => Ok a
       | None => Raise IndexError
       end.

(** [min(x, *t)] on a non-empty list of floats: the first element is the
    candidate, and a later element replaces it when it is [<] the candidate. *)
Fixpoint py_min_from (cur : float) (l : list float) : float :=
  match l with
  | [] => cur
  | x :: t => py_min_from (if (x <? cur)%float then x else cur) t
  end.

(** ** Messages *)

(** [sensor_msgs/LaserScan], the two fields the node reads.  [ranges] is a
    float32 array that [list(...)] turns into Python floats, and every
    float32 value is a binary64 value; the array may be empty. *)
Record LaserScan : Set := {
  ranges : list float;
  range_max : float
}.

(** [geometry_msgs/Twist]; [Twist()] is all zeros and the node only ever
    assigns [linear.x] and [angular.z]. *)
Record Twist : Set := {
  linear_x : float;
  angular_z : float
}.

(** ** The node *)

(** [self.state] holds one of three string constants. *)
Inductive State : Set := EXPLORING | BACKING_UP | TURNING.

(** The fields of [SmartSafeMapper] that change after [__init__]. *)
Record SmartSafeMapper : Set := {
  lidar_data : option LaserScan;   (* [None] until the first scan *)
  state : State;
  backup_time : float
}.

(** The parameters assigned once in [__init__] and never again. *)
Definition safe_distance : float := 0.7.
Definition min_distance : float := 0.3.
Definition forward_speed : float := 0.12.
Definition turn_speed : float := 0.8.
Definition backup_speed : float := (- 0.1)%float.

(** [__init__]. *)
Definition init : SmartSafeMapper :=
  {| lidar_data := None; state := EXPLORING; backup_time := 0.0 |}.

(** [lidar_callback]. *)
Definition lidar_callback (self : SmartSafeMapper) (msg : LaserScan)
  : SmartSafeMapper :=
  {| lidar_data := Some msg; state := state self;
     backup_time := backup_time self |}.

(** The dictionary [get_safe_directions] returns. *)
Record Sectors : Set := {
  front : float;
  left : float;
  right : float;
  left_better : bool;
  right_better : bool;
  equal : bool
}.

(** The raw index windows of [get_safe_directions], before [% num_ranges]. *)
Definition front_window : list Z := py_range 0 30 ++ py_range 330 360.
Definition left_window : list Z := py_range 60 120.
Definition right_window : list Z := py_range 240 300.

(** [[i % num_ranges for i in window]]. *)
Definition adjust (window : list Z) (num_ranges : Z) : result (list Z) :=
  comprehension (fun i => py_mod i num_ranges) window.

(** The test a sample passes to enter [valid_ranges]. *)
Definition valid_range (msg : LaserScan) (r : float) : bool :=
  negb (is_nan r) && (0.1 <? r)%float && (r <? range_max msg)%float.

(** The loop of [get_sector_min]: [valid_ranges] in the order appended. *)
Fixpoint valid_ranges (msg : LaserScan) (indices : list Z)
  : result (list float) :=
  match indices with
  | [] => Ok []
  | idx :: rest =>
      if (idx <? len (ranges msg))%Z then
        r <- py_index (ranges msg) idx ;;
        vs <- valid_ranges msg rest ;;
        Ok (if valid_range msg r then r :: vs else vs)
      else valid_ranges msg rest
  end.

(** [get_sector_min], local to [get_safe_directions]. *)
Definition get_sector_min (msg : LaserScan) (indices : list Z) : result float :=
  vs <- valid_ranges msg indices ;;
  Ok match vs with
     | [] => range_max msg
     | x :: t => py_min_from x t
     end.

(** [get_safe_directions]; [Ok None] is Python's [return None]. *)
Definition get_safe_directions (self : SmartSafeMapper)
  : result (option Sectors) :=
  match lidar_data self with
  | None => Ok None
  | Some msg =>
      let num_ranges := len (ranges msg) in
      front_indices <- adjust front_window num_ranges ;;
      left_indices <- adjust left_window num_ranges ;;
      right_indices <- adjust right_window num_ranges ;;
      front_min <- get_sector_min msg front_indices ;;
      left_min <- get_sector_min msg left_indices ;;
      right_min <- get_sector_min msg right_indices ;;
      let left_better := (0.3 <? left_min - right_min)%float in
      let right_better := (0.3 <? right_min - left_min)%float in
      Ok (Some {| front := front_min; left := left_min; right := right_min;
                  left_better := left_better; right_better := right_better;
                  equal := negb left_better && negb right_better |})
  end.

(** The module-level generator of Python's [random]: the values its
    successive [random.random()] calls return, and how many were taken.
    It belongs to the process, not to the node. *)
Record Random : Type := {
  draws : nat -> float;
  taken : nat
}.

Definition random_random (g : Random) : float * Random :=
  (draws g (taken g), {| draws := draws g; taken := S (taken g) |}).

(** [control_loop]: the node and generator after the tick, and the message
    published on [/cmd_vel] ([None] when the tick returns early).  Logging
    is left out: it formats floats and cannot raise. *)
Definition control_loop (self : SmartSafeMapper) (g : Random)
  : result (SmartSafeMapper * Random * option Twist) :=
  match lidar_data self with
  | None => Ok (self, g, None)
  | Some _ =>
      o <- get_safe_directions self ;;
      match o with
      | None => Ok (self, g, None)
      | Some sectors =>
          let front_distance := front sectors in
          match state self with
          | EXPLORING =>
              if (front_distance <? min_distance)%float then
                Ok ({| lidar_data := lidar_data self; state := BACKING_UP;
                       backup_time := 0.0 |}, g,
                    Some {| linear_x := backup_speed; angular_z := 0.0 |})
              else if (front_distance <? safe_distance)%float then
                let lin := (forward_speed * 0.3)%float in
                if left_better sectors then
                  Ok (self, g,
                      Some {| linear_x := lin; angular_z := turn_speed |})
                else if right_better sectors then
                  Ok (self, g,
                      Some {| linear_x := lin; angular_z := (- turn_speed)%float |})
                else
                  let '(u, g') := random_random g in
                  Ok (self, g',
                      Some {| linear_x := lin;
                              angular_z := if (0.5 <? u)%float then turn_speed
                                           else (- turn_speed)%float |})
              else
                Ok (self, g,
                    Some {| linear_x := forward_speed; angular_z := 0.0 |})
          | BACKING_UP =>
              let t := (backup_time self + 0.1)%float in
              Ok ({| lidar_data := lidar_data self;
                     state := if (1.5 <=? t)%float then TURNING else BACKING_UP;
                     backup_time := t |}, g,
                  Some {| linear_x := backup_speed; angular_z := 0.0 |})
          | TURNING =>
              let t := (backup_time self + 0.1)%float in
              let self' :=
                {| lidar_data := lidar_data self;
                   state := if (3.5 <=? t)%float then EXPLORING else TURNING;
                   backup_time := t |} in
              if left_better sectors then
                Ok (self', g, Some {| linear_x := 0.0; angular_z := turn_speed |})
              else if right_better sectors then
                Ok (self', g,
                    Some {| linear_x := 0.0; angular_z := (- turn_speed)%float |})
              else
                let '(u, g') := random_random g in
                Ok (self', g',
                    Some {| linear_x := 0.0;
                            angular_z := if (0.5 <? u)%float then turn_speed
                                         else (- turn_speed)%float |})
          end
      end
  end.

(** ** The executor *)

(** What [rclpy.spin] dispatches to the node: a message on [/scan] or a
    firing of the 0.1 s timer. *)
Inductive event : Set :=
| Scan (msg : LaserScan)
| Tick.

(** [rclpy.spin(node)] over a finite trace of events: the node and generator
    at the end, and the messages published on [/cmd_vel], oldest first.  An
    exception in a callback leaves [spin]. *)
Fixpoint spin (self : SmartSafeMapper) (g : Random) (evs : list event)
  : result (SmartSafeMapper * Random * list Twist) :=
  match evs with
  | [] => Ok (self, g, [])
  | Scan msg :: rest => spin (lidar_callback self msg) g rest
  | Tick :: rest =>
      r <- control_loop self g ;;
      let '(self1, g1, out) := r in
      r' <- spin self1 g1 rest ;;
      let '(self2, g2, outs) := r' in
      Ok (self2, g2, match out with Some c => c :: outs | None => outs end)
  end.

Definition count_ticks (evs : list event) : nat :=
  length (filter (fun e => match e with Tick => true | Scan _ => false end) evs).

(** Every scan delivered by a trace has at least one sample. *)
Definition scans_nonempty (evs : list event) : Prop :=
  forall msg, In (Scan msg) evs -> ranges msg <> [].

(** [Twist()], the message [main] publishes when it is interrupted. *)
Definition stop_msg : Twist := {| linear_x := 0.0; angular_z := 0.0 |}.

(** [rclpy.spin(node)] again, keeping what was published before a callback
    raised: the messages on [/cmd_vel], oldest first, and how the trace
    ended. *)
Fixpoint spin_log (self : SmartSafeMapper) (g : Random) (evs : list event)
  : list Twist * result (SmartSafeMapper * Random) :=
  match evs with
  | [] => ([], Ok (self, g))
  | Scan msg :: rest => spin_log (lidar_callback self msg) g rest
  | Tick :: rest =>
      match control_loop self g with
      | Raise e => ([], Raise e)
      | Ok (self1, g1, out) =>
          let '(log, r) := spin_log self1 g1 rest in
          (match out with Some c => c :: log | None => log end, r)
      end
  end.

(** [main]: the node is built by [__init__] and spun over the events [evs],
    after which Ctrl-C arrives.  [except KeyboardInterrupt] publishes
    [Twist()]; any other exception leaves [main] through [finally] and is
    the second component.  Where exactly the interrupt lands inside a
    callback does not show in what is published: [publish] is the last
    statement of [control_loop], so an interrupted tick has published either
    nothing or all it publishes. *)
Definition main (g : Random) (evs : list event) : list Twist * option exn :=
  match spin_log init g evs with
  | (log, Ok _) => (log ++ [stop_msg], None)
  | (log, Raise e) => (log, Some e)
  end.

(** * Vocabulary of the statements *)

(** ** What [get_safe_directions] computes, as pure functions of the scan *)

(** The samples a window selects: those at the window's indices taken
    modulo the scan's length. *)
Definition sector_samples (msg : LaserScan) (window : list Z) : list float :=
  map (fun i => nth (Z.to_nat (i mod len (ranges msg))) (ranges msg) 0%float)
      window.

(** The minimum [get_sector_min] returns for a window. *)
Definition sector_min (msg : LaserScan) (window : list Z) : float :=
  match filter (valid_range msg) (sector_samples msg window) with
  | [] => range_max msg
  | x :: t => py_min_from x t
  end.

(** The dictionary [get_safe_directions] returns for a scan. *)
Definition summary (msg : LaserScan) : Sectors :=
  let front_min := sector_min msg front_window in
  let left_min := sector_min msg left_window in
  let right_min := sector_min msg right_window in
  let left_better := (0.3 <? left_min - right_min)%float in
  let right_better := (0.3 <? right_min - left_min)%float in
  {| front := front_min; left := left_min; right := right_min;
     left_better := left_better; right_better := right_better;
     equal := negb left_better && negb right_better |}.

(** What C5 says of the minimum [v] of one sector of a scan: it is
    [range_max] and no sample of the sector is valid, or it is a valid
    sample of the sector, strictly between 0.1 and [range_max], and at most
    every valid sample of the sector. *)
Definition sector_value (msg : LaserScan) (window : list Z) (v : float) : Prop :=
  let valid := filter (valid_range msg) (sector_samples msg window) in
  (valid = [] /\ v = range_max msg) \/
  (In v valid /\
   (0.1 <? v)%float = true /\ (v <? range_max msg)%float = true /\
   forall r, In r valid -> (v <=? r)%float = true).

(** ** Steering *)

(** The turn rate both steering branches of [control_loop] assign, given
    the value [u] the tie-break draw returns. *)
Definition steer (s : Sectors) (u : float) : float :=
  if left_better s then turn_speed
  else if right_better s then (- turn_speed)%float
  else if (0.5 <? u)%float then turn_speed else (- turn_speed)%float.

(** The generator after a steering branch: one value is taken exactly when
    neither side is better. *)
Definition after_steer (s : Sectors) (g : Random) : Random :=
  if left_better s then g
  else if right_better s then g
  else snd (random_random g).

(** The value the next call of [random.random()] returns. *)
Definition next_draw (g : Random) : float := fst (random_random g).

(** What a tick published, if anything. *)
Definition published (r : result (SmartSafeMapper * Random * option Twist))
  : option Twist :=
  match r with
  | Ok (_, _, c) => c
  | Raise _ => None
  end.

(** ** The back-up manoeuvre *)

(** [backup_time] after [k] ticks since it was reset: [0.1] added [k]
    times in binary64. *)
Definition timer_after (k : nat) : float :=
  Nat.iter k (fun t => (t + 0.1)%float) 0.0%float.

(** The state [k] ticks after entering BACKING_UP. *)
Definition phase (k : nat) : State :=
  if k <? 15 then BACKING_UP else if k <? 35 then TURNING else EXPLORING.

(** The invariant of the back-up manoeuvre, [k] ticks after its start. *)
Definition manoeuvre (k : nat) (self : SmartSafeMapper) : Prop :=
  (exists msg, lidar_data self = Some msg /\ ranges msg <> []) /\
  state self = phase k /\
  backup_time self = timer_after k.

(** Every scan a trace delivers is [msg]. *)
Definition only_scan (msg : LaserScan) (evs : list event) : Prop :=
  forall m, In (Scan m) evs -> m = msg.

(** ** Claims as the specification words them *)

(** [round(degree * N / 360) mod N], rounding half up (it is exact whenever
    360 divides [degree * N]). *)
Definition scaled_index (N degree : Z) : Z :=
  ((2 * degree * N + 360) / 720) mod N.

(** A degree window [[lo, hi)] scaled to a scan of [N] samples: the indices
    from the scaled lower bound up to the scaled upper bound, wrapping. *)
Definition scaled_window (N : Z) (lo hi : Z) (i : Z) : Prop :=
  (0 <= i < N)%Z /\
  let a := scaled_index N lo in
  let b := scaled_index N hi in
  if (a <? b)%Z then (a <= i < b)%Z else (a <= i \/ i < b)%Z.

(** C1 as worded, for a scan of [N] samples: the index lists the node
    computes are the degree windows scaled to [N]. *)
Definition sectors_scaled (N : Z) : Prop :=
  forall f l r,
    adjust front_window N = Ok f ->
    adjust left_window N = Ok l ->
    adjust right_window N = Ok r ->
    forall i,
      (In i f <-> scaled_window N 330 30 i) /\
      (In i l <-> scaled_window N 60 120 i) /\
      (In i r <-> scaled_window N 240 300 i).

(** Exactly one of three booleans is true. *)
Definition exactly_one (a b c : bool) : Prop :=
  (a = true /\ b = false /\ c = false) \/
  (a = false /\ b = true /\ c = false) \/
  (a = false /\ b = false /\ c = true).

(** C4 as worded, for one summary. *)
Definition hysteresis_flags (s : Sectors) : Prop :=
  exactly_one (left_better s) (right_better s) (equal s) /\
  (left_better s = true <-> (0.3 <? left s - right s)%float = true) /\
  (right_better s = true <-> (0.3 <? right s - left s)%float = true) /\
  (equal s = true <-> (abs (left s - right s) <=? 0.3)%float = true).

(** C8 as worded: the random source is injected into the node, so the
    command of a tick is determined by the node and does not vary with the
    process-wide generator of [random]. *)
Definition tie_break_source_injected : Prop :=
  forall (self : SmartSafeMapper) (g1 g2 : Random),
    published (control_loop self g1) = published (control_loop self g2).

(** ** Example inputs *)

(** 360 samples at 1 m, maximum range 3.5 m. *)
Definition open_scan : LaserScan :=
  {| ranges := repeat 1.0%float 360; range_max := 3.5 |}.

(** A wall 0.2 m away all around. *)
Definition wall_scan : LaserScan :=
  {| ranges := repeat 0.2%float 360; range_max := 3.5 |}.

(** A scan whose [ranges] array is empty. *)
Definition empty_scan (rmax : float) : LaserScan :=
  {| ranges := []; range_max := rmax |}.

(** A sensor that reports an unbounded maximum range and sees nothing:
    every sample is [inf], and so is [range_max]. *)
Definition unbounded_scan : LaserScan :=
  {| ranges := repeat infinity 360; range_max := infinity |}.

(** A scan that differs from [open_scan] only behind the robot: a wall at
    0.2 m over the indices 120..239. *)
Definition wall_behind_scan : LaserScan :=
  {| ranges := repeat 1.0%float 120 ++ repeat 0.2%float 120
               ++ repeat 1.0%float 120;
     range_max := 3.5 |}.

(** 180 samples, one every two degrees: 1 m over the first half of the
    array, a wall at 0.4 m over the second half. *)
Definition half_resolution_scan : LaserScan :=
  {| ranges := repeat 1.0%float 90 ++ repeat 0.4%float 90; range_max := 3.5 |}.

(** 720 samples, one every half degree, at 1 m, but for one obstacle at
    0.2 m at index 690: 345 degrees, 15 degrees to the right of straight
    ahead. *)
Definition front_obstacle_720 : LaserScan :=
  {| ranges := repeat 1.0%float 690 ++ [0.2%float] ++ repeat 1.0%float 29;
     range_max := 3.5 |}.

(** 720 samples at 1 m, but for one obstacle at 0.2 m at index 330: 165
    degrees, behind the robot. *)
Definition rear_obstacle_720 : LaserScan :=
  {| ranges := repeat 1.0%float 330 ++ [0.2%float] ++ repeat 1.0%float 389;
     range_max := 3.5 |}.

(** A generator whose every draw is [u]. *)
Definition constant_random (u : float) : Random :=
  {| draws := fun _ => u; taken := 0 |}.

(** ** Binary64 values as [spec_float] *)

(** [b] is the opposite of [a], or both are zeros (of any signs). *)
Definition opp_or_zero (a b : spec_float) : Prop :=
  b = SFopp a \/ exists s s', a = S754_zero s /\ b = S754_zero s'.

(** A zero or a non-zero finite number: neither NaN nor an infinity. *)
Definition sf_finite (a : spec_float) : Prop :=
  match a with
  | S754_zero _ | S754_finite _ _ _ => True
  | _ => False
  end.

(** ** Runs of the node *)

(** The ticks of a trace that come after its first scan delivery. *)
Fixpoint ticks_after_first_scan (evs : list event) : nat :=
  match evs with
  | [] => 0
  | Scan _ :: rest => count_ticks rest
  | Tick :: rest => ticks_after_first_scan rest
  end.

(** The commands [control_loop] can publish: back up, full speed ahead, or
    a turn at 0.8 rad/s either way, creeping forward or on the spot. *)
Definition allowed_command (c : Twist) : Prop :=
  c = {| linear_x := (- 0.1)%float; angular_z := 0.0 |} \/
  c = {| linear_x := 0.12; angular_z := 0.0 |} \/
  ((linear_x c = (0.12 * 0.3)%float \/ linear_x c = 0.0%float) /\
   (angular_z c = 0.8%float \/ angular_z c = (- 0.8)%float)).

(** The edges of the state machine, self-loops included. *)
Definition transition_ok (st st' : State) : Prop :=
  match st, st' with
  | EXPLORING, EXPLORING | EXPLORING, BACKING_UP
  | BACKING_UP, BACKING_UP | BACKING_UP, TURNING
  | TURNING, TURNING | TURNING, EXPLORING => True
  | _, _ => False
  end.

(** The timer is where its state says: below 1.5 s while backing up, from
    1.5 s to below 3.5 s while turning. *)
Definition timer_invariant (self : SmartSafeMapper) : Prop :=
  match state self with
  | EXPLORING => True
  | BACKING_UP => (backup_time self <? 1.5)%float = true
  | TURNING => (1.5 <=? backup_time self)%float = true /\
               (backup_time self <? 3.5)%float = true
  end.

(** The node is exploring, or [k < 35] ticks into a back-up manoeuvre. *)
Definition on_schedule (self : SmartSafeMapper) : Prop :=
  state self = EXPLORING \/
  exists k, k < 35 /\ state self = phase k /\ backup_time self = timer_after k.

(** The command of the tick taken [k] ticks into the manoeuvre. *)
Definition command_at (k : nat) (c : Twist) : Prop :=
  if k <? 15 then c = {| linear_x := (- 0.1)%float; angular_z := 0.0 |}
  else linear_x c = 0.0%float /\
       (angular_z c = 0.8%float \/ angular_z c = (- 0.8)%float).

(** The commands of consecutive ticks, the first one [k] ticks in. *)
Fixpoint commands_from (k : nat) (out : list Twist) : Prop :=
  match out with
  | [] => True
  | c :: t => command_at k c /\ commands_from (S k) t
  end.

(** The indices of a 360-sample scan that some sector reads. *)
Definition watched (i : Z) : Prop :=
  (0 <= i < 30 \/ 60 <= i < 120 \/ 240 <= i < 300 \/ 330 <= i < 360)%Z.

(** * Proofs *)

(** ** The order of binary64 values *)

Module FloatOrder.

Ltac sf_destruct :=
  repeat match goal with
  | x : spec_float |- _ => destruct x as [[|]|[|]| |[|] ? ?]
  end.

Ltac cmp_cases :=
  change (Pos.compare_cont Eq) with Pos.compare in *;
  repeat match goal with
  | H : context [Z.compare ?a ?b] |- _ => destruct (Z.compare_spec a b)
  | |- context [Z.compare ?a ?b] => destruct (Z.compare_spec a b)
  | H : context [Pos.compare ?a ?b] |- _ => destruct (Pos.compare_spec a b)
  | |- context [Pos.compare ?a ?b] => destruct (Pos.compare_spec a b)
  end.

Ltac sf_order :=
  sf_destruct; simpl in *; try reflexivity; try discriminate;
  cmp_cases; simpl in *; subst;
  try reflexivity; try discriminate; try lia.

Lemma SFcompare_antisym (x y : spec_float) :
  SFcompare y x = option_map CompOpp (SFcompare x y).
Proof. sf_order. Qed.

Lemma SFleb_trans (x y z : spec_float) :
  SFleb x y = true -> SFleb y z = true -> SFleb x z = true.
Proof. unfold SFleb. sf_order. Qed.

Lemma SFltb_leb_trans (x y z : spec_float) :
  SFltb x y = true -> SFleb y z = true -> SFltb x z = true.
Proof. unfold SFltb, SFleb. sf_order. Qed.

Lemma SFleb_ltb_trans (x y z : spec_float) :
  SFleb x y = true -> SFltb y z = true -> SFltb x z = true.
Proof. unfold SFltb, SFleb. sf_order. Qed.

Lemma SFcompare_refl (x : spec_float) :
  x <> S754_nan -> SFcompare x x = Some Eq.
Proof.
  destruct x as [[|]|[|]| |[|] m e]; simpl; try reflexivity; try congruence;
    intros _; rewrite Z.compare_refl, Pos.compare_cont_refl; reflexivity.
Qed.

Lemma SFcompare_nan (x y : spec_float) :
  SFcompare x y = None <-> x = S754_nan \/ y = S754_nan.
Proof.
  split.
  - destruct x as [[|]|[|]| |[|] ? ?], y as [[|]|[|]| |[|] ? ?]; simpl;
      intros H; try discriminate; auto.
  - intros [-> | ->]; [reflexivity | destruct x; reflexivity].
Qed.

Section Prim.

Local Open Scope float_scope.

Lemma is_nan_spec (x : float) : is_nan x = true <-> Prim2SF x = S754_nan.
Proof.
  unfold is_nan. rewrite eqb_spec. unfold SFeqb. split.
  - destruct (Prim2SF x) eqn:E; auto; intros H;
      rewrite SFcompare_refl in H by discriminate; discriminate.
  - intros ->. reflexivity.
Qed.

Lemma is_nan_false (x : float) : is_nan x = false <-> Prim2SF x <> S754_nan.
Proof.
  rewrite <- is_nan_spec. destruct (is_nan x); split; congruence.
Qed.

Lemma ltb_not_nan (x y : float) :
  (x <? y) = true -> is_nan x = false /\ is_nan y = false.
Proof.
  rewrite ltb_spec, !is_nan_false. unfold SFltb.
  destruct (SFcompare (Prim2SF x) (Prim2SF y)) eqn:E; try discriminate.
  intros _. split; intros N; rewrite N in E;
    [discriminate | destruct (Prim2SF x); discriminate].
Qed.

Lemma leb_not_nan (x y : float) :
  (x <=? y) = true -> is_nan x = false /\ is_nan y = false.
Proof.
  rewrite leb_spec, !is_nan_false. unfold SFleb.
  destruct (SFcompare (Prim2SF x) (Prim2SF y)) eqn:E; try discriminate.
  intros _. split; intros N; rewrite N in E;
    [discriminate | destruct (Prim2SF x); discriminate].
Qed.

Lemma ltb_leb (x y : float) : (x <? y) = true -> (x <=? y) = true.
Proof.
  rewrite ltb_spec, leb_spec. unfold SFltb, SFleb.
  destruct (SFcompare _ _) as [[| |]|]; congruence.
Qed.

Lemma ltb_leb_false (x y : float) : (x <? y) = true -> (y <=? x) = false.
Proof.
  rewrite ltb_spec, leb_spec. unfold SFltb, SFleb.
  rewrite (SFcompare_antisym (Prim2SF x) (Prim2SF y)).
  destruct (SFcompare _ _) as [[| |]|]; simpl; congruence.
Qed.

Lemma leb_ltb_false (x y : float) : (x <=? y) = true -> (y <? x) = false.
Proof.
  intros H. destruct (y <? x) eqn:E; [|reflexivity].
  apply ltb_leb_false in E. congruence.
Qed.

Lemma not_ltb_leb (x y : float) :
  is_nan x = false -> is_nan y = false -> (x <? y) = false -> (y <=? x) = true.
Proof.
  rewrite !is_nan_false, ltb_spec, leb_spec. unfold SFltb, SFleb.
  intros Hx Hy. rewrite (SFcompare_antisym (Prim2SF x) (Prim2SF y)).
  destruct (SFcompare _ _) as [[| |]|] eqn:E; simpl; try congruence.
  apply SFcompare_nan in E. tauto.
Qed.

Lemma leb_refl (x : float) : is_nan x = false -> (x <=? x) = true.
Proof.
  rewrite is_nan_false, leb_spec. unfold SFleb. intros H.
  rewrite SFcompare_refl by assumption. reflexivity.
Qed.

Lemma leb_trans (x y z : float) :
  (x <=? y) = true -> (y <=? z) = true -> (x <=? z) = true.
Proof. rewrite !leb_spec. apply SFleb_trans. Qed.

Lemma ltb_leb_trans (x y z : float) :
  (x <? y) = true -> (y <=? z) = true -> (x <? z) = true.
Proof. rewrite !ltb_spec, leb_spec. apply SFltb_leb_trans. Qed.

Lemma leb_ltb_trans (x y z : float) :
  (x <=? y) = true -> (y <? z) = true -> (x <? z) = true.
Proof. rewrite !ltb_spec, leb_spec. apply SFleb_ltb_trans. Qed.

End Prim.

End FloatOrder.

(** ** Swapping the operands of a binary64 subtraction *)

Module FloatSub.

Section Sub.
Variables prec emax : Z.

Lemma binary_round_aux_negb (s : bool) (m e : Z) (l : location) :
  binary_round_aux prec emax (negb s) m e l
  = SFopp (binary_round_aux prec emax s m e l).
Proof.
  unfold binary_round_aux.
  destruct (shr_fexp prec emax m e l) as [mrs e'].
  destruct (shr_fexp prec emax _ e' loc_Exact) as [mrs' e''].
  destruct (shr_m mrs'); [reflexivity | | reflexivity].
  destruct (Z.leb e'' (Z.sub emax prec)); reflexivity.
Qed.

Lemma binary_round_negb (s : bool) (m : positive) (e : Z) :
  binary_round prec emax (negb s) m e = SFopp (binary_round prec emax s m e).
Proof.
  unfold binary_round. destruct (shl_align m e _) as [mz ez].
  apply binary_round_aux_negb.
Qed.

Lemma binary_normalize_opp (z e : Z) :
  opp_or_zero (binary_normalize prec emax z e false)
              (binary_normalize prec emax (- z) e false).
Proof.
  destruct z as [|p|p]; cbn [Z.opp binary_normalize].
  - right. eauto.
  - left. apply (binary_round_negb false).
  - left. rewrite (binary_round_negb false). 
    destruct (binary_round prec emax false p e) as [[|]|[|]| |[|] ? ?]; reflexivity.
Qed.

Lemma SFsub_swap (x y : spec_float) :
  opp_or_zero (SFsub prec emax x y) (SFsub prec emax y x).
Proof.
  destruct x as [sx|sx| |sx mx ex], y as [sy|sy| |sy my ey];
    try solve [left; reflexivity];
    try solve [destruct sx; left; reflexivity];
    try solve [destruct sy; left; reflexivity];
    try solve [destruct sx, sy;
               first [left; reflexivity
                     | right; do 2 eexists; split; reflexivity]].
  cbn [SFsub]. rewrite (Z.min_comm ey ex).
  match goal with
  | |- opp_or_zero (binary_normalize _ _ (?a - ?b)%Z _ _) _ =>
      replace (b - a)%Z with (- (a - b))%Z by lia
  end.
  apply binary_normalize_opp.
Qed.

Lemma opp_or_zero_ltb (c a b : spec_float) (m : positive) (e : Z) :
  c = S754_finite false m e -> opp_or_zero a b ->
  SFltb c a = true -> SFltb c b = false.
Proof.
  intros -> [-> | (s & s' & -> & ->)].
  - destruct a as [[|]|[|]| |[|] ? ?]; cbn; try reflexivity; try discriminate.
  - discriminate.
Qed.

Lemma opp_or_zero_abs (c a b : spec_float) (m : positive) (e : Z) :
  c = S754_finite false m e -> opp_or_zero a b -> a <> S754_nan ->
  (SFltb c a = false /\ SFltb c b = false) <-> SFleb (SFabs a) c = true.
Proof.
  intros -> [-> | (s & s' & -> & ->)] Hn.
  - destruct a as [[|]|[|]| |[|] ma ea]; try congruence;
      unfold SFltb, SFleb; cbn; try tauto; try (split; [intros [? ?]|]; discriminate);
      FloatOrder.cmp_cases; subst; try tauto; try lia;
      try (split; [intros [? ?]|]; discriminate).
  - cbn. tauto.
Qed.

Lemma shr_1_nonneg (mrs : shr_record) :
  (0 <= shr_m mrs)%Z -> (0 <= shr_m (shr_1 mrs))%Z.
Proof.
  destruct mrs as [m r s]. cbn [shr_m]. intros H.
  destruct m as [|[p|p|]|p]; cbn; lia.
Qed.

Lemma iter_pos_shr_1_nonneg (p : positive) :
  forall mrs, (0 <= shr_m mrs)%Z -> (0 <= shr_m (iter_pos shr_1 p mrs))%Z.
Proof.
  induction p as [p IH|p IH|]; intros mrs H; cbn [iter_pos].
  - apply IH, IH, shr_1_nonneg, H.
  - apply IH, IH, H.
  - apply shr_1_nonneg, H.
Qed.

Lemma shr_fexp_nonneg (m e : Z) (l : location) :
  (0 <= m)%Z -> (0 <= shr_m (fst (shr_fexp prec emax m e l)))%Z.
Proof.
  intros H. unfold shr_fexp, shr.
  assert (H0 : (0 <= shr_m (shr_record_of_loc m l))%Z).
  { destruct l as [|[| |]]; exact H. }
  destruct (_ - e)%Z; cbn [fst]; auto using iter_pos_shr_1_nonneg.
Qed.

Lemma round_nearest_even_nonneg (m : Z) (l : location) :
  (0 <= m)%Z -> (0 <= round_nearest_even m l)%Z.
Proof.
  intros H. destruct l as [|[| |]]; cbn; try lia.
  destruct (Z.even m); lia.
Qed.

Lemma binary_round_aux_not_nan (s : bool) (m e : Z) (l : location) :
  (0 <= m)%Z -> binary_round_aux prec emax s m e l <> S754_nan.
Proof.
  intros H. unfold binary_round_aux.
  pose proof (@shr_fexp_nonneg m e l H) as H1.
  destruct (shr_fexp prec emax m e l) as [mrs e']. cbn [fst] in H1.
  pose proof (@shr_fexp_nonneg _ e' loc_Exact
                (@round_nearest_even_nonneg _ (loc_of_shr_record mrs) H1)) as H2.
  destruct (shr_fexp prec emax _ e' loc_Exact) as [mrs' e'']. cbn [fst] in H2.
  destruct (shr_m mrs'); [discriminate | | lia].
  destruct (Z.leb e'' (Z.sub emax prec)); discriminate.
Qed.

Lemma binary_normalize_not_nan (z e : Z) (s : bool) :
  binary_normalize prec emax z e s <> S754_nan.
Proof.
  destruct z; cbn [binary_normalize]; [discriminate | |];
    unfold binary_round; destruct (shl_align _ _ _);
    apply binary_round_aux_not_nan; lia.
Qed.

Lemma SFsub_finite_not_nan (a b : spec_float) :
  sf_finite a -> sf_finite b -> SFsub prec emax a b <> S754_nan.
Proof.
  destruct a as [sa|sa| |sa ma ea], b as [sb|sb| |sb mb eb];
    cbn [sf_finite]; try tauto; intros _ _; cbn [SFsub];
    try discriminate.
  - destruct sa, sb; discriminate.
  - apply binary_normalize_not_nan.
Qed.
End Sub.

Section PrimSub.
Local Open Scope float_scope.

Lemma sub_swap_exclusive (x y : float) :
  (0.3 <? x - y) = true -> (0.3 <? y - x) = false.
Proof.
  rewrite !ltb_spec, !sub_spec.
  eapply opp_or_zero_ltb; [vm_compute; reflexivity | apply SFsub_swap].
Qed.

Lemma sub_swap_abs (x y : float) :
  is_nan (x - y) = false ->
  ((0.3 <? x - y) = false /\ (0.3 <? y - x) = false) <->
  (abs (x - y) <=? 0.3) = true.
Proof.
  rewrite FloatOrder.is_nan_false, !ltb_spec, leb_spec, abs_spec, !sub_spec.
  eapply opp_or_zero_abs; [vm_compute; reflexivity | apply SFsub_swap].
Qed.

Lemma is_finite_sf (x : float) : is_finite x = true -> sf_finite (Prim2SF x).
Proof.
  unfold is_finite, is_infinity. rewrite negb_true_iff, orb_false_iff.
  rewrite FloatOrder.is_nan_false, eqb_spec, abs_spec.
  change (Prim2SF infinity) with (S754_infinity false).
  intros [Hn Hi].
  destruct (Prim2SF x) as [s|s| |s m e]; cbn [sf_finite]; auto.
  - destruct s; discriminate.
Qed.

Lemma between_sf (a x b : float) :
  (a <? x) = true -> (x <? b) = true -> sf_finite (Prim2SF x).
Proof.
  rewrite !ltb_spec. unfold SFltb.
  destruct (Prim2SF a) as [[|]|[|]| |[|] ? ?],
           (Prim2SF x) as [[|]|[|]| |[|] ? ?]; cbn; try discriminate; auto;
    destruct (Prim2SF b) as [[|]|[|]| |[|] ? ?]; cbn; discriminate.
Qed.

Lemma sub_not_nan (x y : float) :
  sf_finite (Prim2SF x) -> sf_finite (Prim2SF y) -> is_nan (x - y) = false.
Proof.
  intros Hx Hy. rewrite FloatOrder.is_nan_false, sub_spec.
  apply SFsub_finite_not_nan; assumption.
Qed.
End PrimSub.

End FloatSub.

(** ** What a tick computes on a scan with at least one sample *)

Lemma len_pos (A : Type) (l : list A) : l <> [] -> (0 < len l)%Z.
Proof. destruct l; [congruence | intros _; unfold len; simpl; lia]. Qed.

Lemma adjust_ok (window : list Z) (n : Z) :
  n <> 0%Z -> adjust window n = Ok (map (fun i => (i mod n)%Z) window).
Proof.
  intros Hn. unfold adjust.
  induction window as [|i w IH]; simpl; [reflexivity|].
  unfold py_mod at 1. destruct (Z.eqb_spec n 0); [contradiction|].
  simpl. rewrite IH. reflexivity.
Qed.

Lemma adjust_zero (i : Z) (window : list Z) :
  adjust (i :: window) 0 = Raise ZeroDivisionError.
Proof. reflexivity. Qed.

Lemma py_index_ok (A : Type) (l : list A) (idx : Z) (d : A) :
  (0 <= idx < len l)%Z -> py_index l idx = Ok (nth (Z.to_nat idx) l d).
Proof.
  intros H. unfold py_index.
  destruct (Z.ltb_spec idx 0); [lia|].
  destruct (Z.ltb_spec idx 0); [lia|].
  rewrite (nth_error_nth' l d); [reflexivity|].
  unfold len in H. lia.
Qed.

Lemma valid_ranges_ok (msg : LaserScan) (window : list Z) :
  ranges msg <> [] ->
  valid_ranges msg (map (fun i => (i mod len (ranges msg))%Z) window)
  = Ok (filter (valid_range msg) (sector_samples msg window)).
Proof.
  intros Hne. pose proof (len_pos Hne) as Hpos.
  induction window as [|i w IH]; simpl; [reflexivity|].
  pose proof (Z.mod_pos_bound i (len (ranges msg)) Hpos) as Hb.
  destruct (Z.ltb_spec (i mod len (ranges msg)) (len (ranges msg))); [|lia].
  rewrite (py_index_ok (ranges msg) 0%float Hb). simpl.
  rewrite IH. simpl. reflexivity.
Qed.

Lemma get_sector_min_ok (msg : LaserScan) (window : list Z) :
  ranges msg <> [] ->
  get_sector_min msg (map (fun i => (i mod len (ranges msg))%Z) window)
  = Ok (sector_min msg window).
Proof.
  intros Hne. unfold get_sector_min. rewrite valid_ranges_ok by assumption.
  reflexivity.
Qed.

Lemma get_safe_directions_ok (self : SmartSafeMapper) (msg : LaserScan) :
  lidar_data self = Some msg -> ranges msg <> [] ->
  get_safe_directions self = Ok (Some (summary msg)).
Proof.
  intros Hd Hne. unfold get_safe_directions. rewrite Hd.
  assert (Hn : len (ranges msg) <> 0%Z) by (pose proof (len_pos Hne); lia).
  rewrite !adjust_ok by assumption. cbn [bind].
  rewrite !get_sector_min_ok by assumption. reflexivity.
Qed.

Lemma get_safe_directions_empty (self : SmartSafeMapper) (msg : LaserScan) :
  lidar_data self = Some msg -> ranges msg = [] ->
  get_safe_directions self = Raise ZeroDivisionError.
Proof.
  intros Hd He. unfold get_safe_directions. rewrite Hd, He. reflexivity.
Qed.

Lemma get_safe_directions_inv (self : SmartSafeMapper) (s : Sectors) :
  get_safe_directions self = Ok (Some s) ->
  exists msg, lidar_data self = Some msg /\ ranges msg <> [] /\ s = summary msg.
Proof.
  intros H. destruct (lidar_data self) as [msg|] eqn:Hd.
  - exists msg. destruct (ranges msg) as [|r rs] eqn:Hr.
    + rewrite (get_safe_directions_empty self Hd Hr) in H. discriminate.
    + assert (Hne : ranges msg <> []) by (rewrite Hr; discriminate).
      rewrite (get_safe_directions_ok self Hd Hne) in H.
      injection H as <-. rewrite <- Hr. auto.
  - unfold get_safe_directions in H. rewrite Hd in H. discriminate.
Qed.

(** [control_loop] once the sectors are known, one equation per state. *)
Lemma control_loop_exploring (self : SmartSafeMapper) (g : Random) (s : Sectors) :
  get_safe_directions self = Ok (Some s) -> state self = EXPLORING ->
  control_loop self g =
  if (front s <? 0.3)%float then
    Ok ({| lidar_data := lidar_data self; state := BACKING_UP;
           backup_time := 0.0 |}, g,
        Some {| linear_x := (- 0.1)%float; angular_z := 0.0 |})
  else if (front s <? 0.7)%float then
    Ok (self, after_steer s g,
        Some {| linear_x := (0.12 * 0.3)%float;
                angular_z := steer s (next_draw g) |})
  else
    Ok (self, g, Some {| linear_x := 0.12; angular_z := 0.0 |}).
Proof.
  intros Hs Hst.
  destruct (get_safe_directions_inv self Hs) as (msg & Hd & _ & _).
  unfold control_loop. rewrite Hd, Hs. cbn [bind]. rewrite Hst.
  unfold min_distance, safe_distance, after_steer, steer, next_draw.
  destruct (front s <? 0.3)%float; [reflexivity|].
  destruct (front s <? 0.7)%float; [|reflexivity].
  destruct (left_better s); [reflexivity|].
  destruct (right_better s); reflexivity.
Qed.

Lemma control_loop_backing_up (self : SmartSafeMapper) (g : Random) (s : Sectors) :
  get_safe_directions self = Ok (Some s) -> state self = BACKING_UP ->
  control_loop self g =
  Ok ({| lidar_data := lidar_data self;
         state := if (1.5 <=? backup_time self + 0.1)%float
                  then TURNING else BACKING_UP;
         backup_time := (backup_time self + 0.1)%float |}, g,
      Some {| linear_x := (- 0.1)%float; angular_z := 0.0 |}).
Proof.
  intros Hs Hst.
  destruct (get_safe_directions_inv self Hs) as (msg & Hd & _ & _).
  unfold control_loop. rewrite Hd, Hs. cbn [bind]. rewrite Hst. reflexivity.
Qed.

Lemma control_loop_turning (self : SmartSafeMapper) (g : Random) (s : Sectors) :
  get_safe_directions self = Ok (Some s) -> state self = TURNING ->
  control_loop self g =
  Ok ({| lidar_data := lidar_data self;
         state := if (3.5 <=? backup_time self + 0.1)%float
                  then EXPLORING else TURNING;
         backup_time := (backup_time self + 0.1)%float |}, after_steer s g,
      Some {| linear_x := 0.0; angular_z := steer s (next_draw g) |}).
Proof.
  intros Hs Hst.
  destruct (get_safe_directions_inv self Hs) as (msg & Hd & _ & _).
  unfold control_loop. rewrite Hd, Hs. cbn [bind]. rewrite Hst.
  unfold after_steer, steer, next_draw.
  destruct (left_better s); [reflexivity|].
  destruct (right_better s); reflexivity.
Qed.

(** * The claims *)

(** ** C6: no scan yet *)

Lemma control_loop_no_scan (self : SmartSafeMapper) (g : Random) :
  lidar_data self = None -> control_loop self g = Ok (self, g, None).
Proof. intros H. unfold control_loop. rewrite H. reflexivity. Qed.

(** C6.  If no scan has ever been received ([lidar_data] is [None]), every
    tick is a no-op: however many times the timer fires, nothing is
    published on [/cmd_vel] and the node (state and [backup_time]) and the
    random generator are unchanged. *)
Theorem tick_without_scan_is_noop (st : State) (t : float) (g : Random) (n : nat) :
  let self := {| lidar_data := None; state := st; backup_time := t |} in
  control_loop self g = Ok (self, g, None) /\
  spin self g (repeat Tick n) = Ok (self, g, []).
Proof.
  intros self. split; [apply control_loop_no_scan; reflexivity|].
  induction n as [|n IH]; [reflexivity|].
  cbn [repeat spin].
  rewrite control_loop_no_scan by reflexivity. cbn [bind].
  rewrite IH. reflexivity.
Qed.

(** ** C3: a tick in EXPLORING *)

(** C3.  For every tick taken in state EXPLORING with a received scan whose
    sectors are [s]: if [front s < 0.3] the tick publishes
    [{linear = -0.1, angular = 0}], the state becomes BACKING_UP and
    [backup_time] is reset to 0; else if [front s < 0.7] it publishes
    [{linear = 0.12 * 0.3, angular = +0.8 or -0.8}] as the turn-direction
    policy [steer] decides and the node is unchanged; else it publishes
    [{linear = 0.12, angular = 0}] and the node is unchanged. *)
Theorem exploring_tick
  (self : SmartSafeMapper) (g : Random) (msg : LaserScan) (s : Sectors) :
  lidar_data self = Some msg ->
  state self = EXPLORING ->
  get_safe_directions self = Ok (Some s) ->
  ((front s <? 0.3)%float = true ->
     control_loop self g =
     Ok ({| lidar_data := Some msg; state := BACKING_UP; backup_time := 0.0 |},
         g, Some {| linear_x := (- 0.1)%float; angular_z := 0.0 |})) /\
  ((front s <? 0.3)%float = false -> (front s <? 0.7)%float = true ->
     let w := steer s (next_draw g) in
     control_loop self g =
     Ok (self, after_steer s g,
         Some {| linear_x := (0.12 * 0.3)%float; angular_z := w |}) /\
     (w = 0.8%float \/ w = (- 0.8)%float) /\
     (left_better s = true -> w = 0.8%float) /\
     (left_better s = false -> right_better s = true -> w = (- 0.8)%float)) /\
  ((front s <? 0.3)%float = false -> (front s <? 0.7)%float = false ->
     control_loop self g =
     Ok (self, g, Some {| linear_x := 0.12; angular_z := 0.0 |})).
Proof.
  intros Hd Hst Hs.
  rewrite (control_loop_exploring self g Hs Hst), Hd.
  split; [|split].
  - intros ->. reflexivity.
  - intros H3 H7 w. rewrite H3, H7. split; [reflexivity|].
    subst w. unfold steer, turn_speed.
    destruct (left_better s), (right_better s),
      (0.5 <? next_draw g)%float; repeat split; auto; discriminate.
  - intros -> ->. reflexivity.
Qed.

Lemma exploring_tick_witness :
  control_loop {| lidar_data := Some wall_scan; state := EXPLORING;
                  backup_time := 0.0 |} (constant_random 0.9)
  = Ok ({| lidar_data := Some wall_scan; state := BACKING_UP;
           backup_time := 0.0 |},
        constant_random 0.9,
        Some {| linear_x := (- 0.1)%float; angular_z := 0.0 |}).
Proof.
  apply (exploring_tick
           {| lidar_data := Some wall_scan; state := EXPLORING;
              backup_time := 0.0 |}
           (constant_random 0.9) (msg := wall_scan) (s := summary wall_scan)
           eq_refl eq_refl).
  - vm_compute. reflexivity.
  - vm_compute. reflexivity.
Defined.

(** ** C9: driving straight is repeatable *)

Lemma leb_safe_distance (x : float) :
  (0.7 <=? x)%float = true ->
  (x <? 0.3)%float = false /\ (x <? 0.7)%float = false.
Proof.
  intros H. split.
  - destruct (x <? 0.3)%float eqn:E; [|reflexivity].
    assert (L : (0.3 <=? 0.7)%float = true) by reflexivity.
    pose proof (@FloatOrder.ltb_leb_trans x 0.3%float 0.7%float E L) as E'.
    apply FloatOrder.ltb_leb_false in E'. congruence.
  - apply FloatOrder.leb_ltb_false. assumption.
Qed.

(** C9.  For every scan whose [front] minimum is at least 0.7, a node in
    EXPLORING that is fed that same scan over and over publishes the
    straight-drive command [{linear = 0.12, angular = 0}] on every tick,
    and nothing accumulates: state, [backup_time], the stored scan and the
    random generator are the same after the trace as before it. *)
Theorem straight_drive_idempotent
  (msg : LaserScan) (t : float) (g : Random) (s : Sectors) (evs : list event) :
  let self := {| lidar_data := Some msg; state := EXPLORING;
                 backup_time := t |} in
  get_safe_directions self = Ok (Some s) ->
  (0.7 <=? front s)%float = true ->
  only_scan msg evs ->
  spin self g evs =
  Ok (self, g,
      repeat {| linear_x := 0.12; angular_z := 0.0 |} (count_ticks evs)).
Proof.
  intros self Hs Hf. destruct (leb_safe_distance Hf) as [H3 H7].
  assert (Htick : control_loop self g =
                  Ok (self, g, Some {| linear_x := 0.12; angular_z := 0.0 |})).
  { rewrite (control_loop_exploring self g Hs eq_refl), H3, H7. reflexivity. }
  induction evs as [|e evs IH]; intros Honly; [reflexivity|].
  assert (Honly' : only_scan msg evs).
  { intros m Hm. apply Honly. right. assumption. }
  destruct e as [m|].
  - rewrite (Honly m (or_introl eq_refl)). cbn [spin].
    change (lidar_callback self msg) with self. apply IH, Honly'.
  - cbn [spin]. rewrite Htick. cbn [bind]. rewrite (IH Honly'). reflexivity.
Qed.

Lemma straight_drive_idempotent_witness :
  spin {| lidar_data := Some open_scan; state := EXPLORING;
          backup_time := 0.0 |} (constant_random 0.9)
       [Tick; Scan open_scan; Tick; Tick]
  = Ok ({| lidar_data := Some open_scan; state := EXPLORING;
           backup_time := 0.0 |}, constant_random 0.9,
        repeat {| linear_x := 0.12; angular_z := 0.0 |} 3).
Proof.
  apply (straight_drive_idempotent (msg := open_scan) 0.0 (constant_random 0.9)
           (s := summary open_scan) (evs := [Tick; Scan open_scan; Tick; Tick])).
  - vm_compute. reflexivity.
  - vm_compute. reflexivity.
  - intros m [H|[H|[H|[H|[]]]]]; try discriminate. injection H as <-. reflexivity.
Defined.

(** ** C7 and C10: a scan without samples *)

(** C7 (the code departs from it).  The claim is that the tick handler never
    raises, whatever the scan, [N = 0] included.  On a scan with no samples
    [i % num_ranges] divides by zero: in every state the tick raises
    [ZeroDivisionError], publishes nothing, and [spin] ends with it. *)
Theorem control_loop_empty_scan_raises
  (rmax : float) (st : State) (t : float) (g : Random) (evs : list event) :
  let self := {| lidar_data := Some (empty_scan rmax); state := st;
                 backup_time := t |} in
  get_safe_directions self = Raise ZeroDivisionError /\
  control_loop self g = Raise ZeroDivisionError /\
  spin self g (Tick :: evs) = Raise ZeroDivisionError.
Proof.
  intros self. split; [reflexivity|]. split; reflexivity.
Qed.

(** On every scan with at least one sample the tick is total: it returns
    normally and publishes one command, whatever the samples are. *)
Lemma control_loop_total
  (self : SmartSafeMapper) (g : Random) (msg : LaserScan) :
  lidar_data self = Some msg -> ranges msg <> [] ->
  exists self' g' c, control_loop self g = Ok (self', g', Some c).
Proof.
  intros Hd Hne.
  pose proof (get_safe_directions_ok self Hd Hne) as Hs.
  destruct (state self) eqn:Hst.
  - rewrite (control_loop_exploring self g Hs Hst).
    destruct (front (summary msg) <? 0.3)%float; [eauto|].
    destruct (front (summary msg) <? 0.7)%float; eauto.
  - rewrite (control_loop_backing_up self g Hs Hst). eauto.
  - rewrite (control_loop_turning self g Hs Hst). eauto.
Qed.

(** In BACKING_UP, on scans with at least one sample, the command and the
    successor node do not depend on the samples. *)
Lemma backing_up_ignores_samples
  (t : float) (g : Random) (msg1 msg2 : LaserScan) :
  ranges msg1 <> [] -> ranges msg2 <> [] ->
  exists st',
    control_loop {| lidar_data := Some msg1; state := BACKING_UP;
                    backup_time := t |} g
    = Ok ({| lidar_data := Some msg1; state := st';
             backup_time := (t + 0.1)%float |}, g,
          Some {| linear_x := (- 0.1)%float; angular_z := 0.0 |}) /\
    control_loop {| lidar_data := Some msg2; state := BACKING_UP;
                    backup_time := t |} g
    = Ok ({| lidar_data := Some msg2; state := st';
             backup_time := (t + 0.1)%float |}, g,
          Some {| linear_x := (- 0.1)%float; angular_z := 0.0 |}).
Proof.
  intros H1 H2.
  exists (if (1.5 <=? t + 0.1)%float then TURNING else BACKING_UP).
  split;
    match goal with
    | |- control_loop ?self _ = _ =>
        rewrite (@control_loop_backing_up self g
                   (summary (match lidar_data self with
                             | Some m => m | None => msg1 end)));
        [reflexivity | apply get_safe_directions_ok; auto | reflexivity]
    end.
Qed.

(** C10 (the code departs from it).  The claim is that two ticks taken in
    BACKING_UP with equal [backup_time] and different received scans publish
    the same command and reach the same successor state.  With one scan
    empty and the other not, the first tick raises and publishes nothing
    while the second publishes the backup command and stays in BACKING_UP. *)
Theorem backing_up_empty_scan_differs (g : Random) :
  control_loop {| lidar_data := Some (empty_scan 3.5); state := BACKING_UP;
                  backup_time := 0.0 |} g
  = Raise ZeroDivisionError /\
  control_loop {| lidar_data := Some open_scan; state := BACKING_UP;
                  backup_time := 0.0 |} g
  = Ok ({| lidar_data := Some open_scan; state := BACKING_UP;
           backup_time := 0.1 |}, g,
        Some {| linear_x := (- 0.1)%float; angular_z := 0.0 |}).
Proof.
  split; [reflexivity|].
  rewrite (@control_loop_backing_up
             {| lidar_data := Some open_scan; state := BACKING_UP;
                backup_time := 0.0 |} g (summary open_scan));
    [reflexivity | vm_compute; reflexivity | reflexivity].
Qed.

(** ** C2: the shared timer of BACKING_UP and TURNING *)

Lemma timer_thresholds (k : nat) :
  k < 35 ->
  (1.5 <=? timer_after k + 0.1)%float = negb (S k <? 15) /\
  (3.5 <=? timer_after k + 0.1)%float = negb (S k <? 35).
Proof.
  intros H.
  do 35 (destruct k as [|k]; [split; vm_compute; reflexivity|]).
  lia.
Qed.

Lemma manoeuvre_tick (k : nat) (self : SmartSafeMapper) (g : Random) :
  k < 35 -> manoeuvre k self ->
  exists self' g' c,
    control_loop self g = Ok (self', g', Some c) /\ manoeuvre (S k) self'.
Proof.
  intros Hk ((msg & Hd & Hne) & Hst & Ht).
  pose proof (get_safe_directions_ok self Hd Hne) as Hs.
  destruct (timer_thresholds Hk) as [H15 H35].
  assert (Hph : phase k = BACKING_UP \/ phase k = TURNING).
  { unfold phase. destruct (k <? 15); auto.
    destruct (Nat.ltb_spec k 35); [auto | exfalso; lia]. }
  destruct Hph as [Hp | Hp]; rewrite Hp in Hst.
  - rewrite (control_loop_backing_up self g Hs Hst), Ht, H15.
    do 3 eexists. split; [reflexivity|].
    split; [exists msg; auto|]. split; [|reflexivity].
    cbn [state]. unfold phase in *.
    destruct (Nat.ltb_spec k 15);
      [|destruct (k <? 35); discriminate].
    destruct (S k <? 15) eqn:E; [reflexivity|]. cbn [negb].
    destruct (Nat.ltb_spec (S k) 35); [reflexivity | exfalso; lia].
  - rewrite (control_loop_turning self g Hs Hst), Ht, H35.
    do 3 eexists. split; [reflexivity|].
    split; [exists msg; auto|]. split; [|reflexivity].
    cbn [state]. unfold phase in *.
    destruct (Nat.ltb_spec k 15); [discriminate|].
    destruct (Nat.ltb_spec (S k) 15); [exfalso; lia|].
    destruct (S k <? 35); reflexivity.
Qed.

Lemma manoeuvre_scan (k : nat) (self : SmartSafeMapper) (msg : LaserScan) :
  ranges msg <> [] -> manoeuvre k self -> manoeuvre k (lidar_callback self msg).
Proof.
  intros Hne (_ & Hst & Ht). split; [exists msg; auto|]. auto.
Qed.

Lemma manoeuvre_spin (evs : list event) :
  forall (k : nat) (self : SmartSafeMapper) (g : Random),
  manoeuvre k self -> scans_nonempty evs -> k + count_ticks evs <= 35 ->
  exists self' g' out,
    spin self g evs = Ok (self', g', out) /\
    length out = count_ticks evs /\
    manoeuvre (k + count_ticks evs) self'.
Proof.
  induction evs as [|e evs IH]; intros k self g Hm Hne Hk.
  - exists self, g, []. cbn. rewrite Nat.add_0_r. auto.
  - assert (Hne' : scans_nonempty evs).
    { intros m Hin. apply Hne. right. assumption. }
    destruct e as [msg|].
    + cbn [spin]. change (count_ticks (Scan msg :: evs)) with (count_ticks evs) in *.
      apply IH; auto. apply manoeuvre_scan; auto. apply Hne. left. reflexivity.
    + change (count_ticks (Tick :: evs)) with (S (count_ticks evs)) in *.
      destruct (@manoeuvre_tick k self g) as (self1 & g1 & c & Hc & Hm1);
        [lia | assumption |].
      destruct (IH (S k) self1 g1 Hm1 Hne') as (self2 & g2 & out & Hsp & Hl & Hm2);
        [lia|].
      exists self2, g2, (c :: out). cbn [spin]. rewrite Hc. cbn [bind].
      rewrite Hsp. cbn [bind]. split; [reflexivity|]. split.
      * cbn [length]. rewrite Hl. reflexivity.
      * rewrite Nat.add_succ_r. exact Hm2.
Qed.

(** C2.  From the entry into BACKING_UP (state BACKING_UP, [backup_time]
    reset to 0), over any trace of timer ticks and scan deliveries (every
    scan with at least one sample): every tick returns and publishes one
    command; after [k] ticks the state is BACKING_UP while [k < 15], TURNING
    while [15 <= k < 35] and EXPLORING at [k = 35].  So exactly 15 ticks are
    spent in BACKING_UP and the return to EXPLORING happens on the 35th tick
    counted from the entry.  The timer is not reset on the way: after [k]
    ticks it holds [0.1] added [k] times, which at the BACKING_UP to TURNING
    boundary is 1.5000000000000002. *)
Theorem backup_turn_timing (msg0 : LaserScan) (g : Random) (evs : list event) :
  ranges msg0 <> [] ->
  scans_nonempty evs ->
  count_ticks evs <= 35 ->
  exists self' g' out,
    spin {| lidar_data := Some msg0; state := BACKING_UP; backup_time := 0.0 |}
         g evs = Ok (self', g', out) /\
    length out = count_ticks evs /\
    state self' = phase (count_ticks evs) /\
    backup_time self' = timer_after (count_ticks evs) /\
    phase 14 = BACKING_UP /\ phase 15 = TURNING /\
    phase 34 = TURNING /\ phase 35 = EXPLORING /\
    timer_after 15 = 1.5000000000000002%float.
Proof.
  intros H0 Hne Hk.
  destruct (@manoeuvre_spin evs 0
              {| lidar_data := Some msg0; state := BACKING_UP;
                 backup_time := 0.0 |} g)
    as (self' & g' & out & Hsp & Hl & (_ & Hst & Ht)); auto.
  - split; [exists msg0; auto|]. split; reflexivity.
  - exists self', g', out. cbn [Nat.add] in *.
    repeat (split; [first [assumption | reflexivity]|]). reflexivity.
Qed.

Lemma backup_turn_timing_witness :
  exists self' g' out,
    spin {| lidar_data := Some open_scan; state := BACKING_UP;
            backup_time := 0.0 |}
         (constant_random 0.9) (repeat Tick 35) = Ok (self', g', out) /\
    length out = 35 /\
    state self' = EXPLORING /\
    backup_time self' = timer_after 35 /\
    phase 14 = BACKING_UP /\ phase 15 = TURNING /\
    phase 34 = TURNING /\ phase 35 = EXPLORING /\
    timer_after 15 = 1.5000000000000002%float.
Proof.
  apply (@backup_turn_timing open_scan (constant_random 0.9) (repeat Tick 35)).
  - discriminate.
  - intros m Hin. apply repeat_spec in Hin. discriminate.
  - vm_compute. lia.
Defined.

(** ** C8: the tie-break *)

(** C8, as stated, fails: the same node on the same scan (both sides at
    1 m) turns left or right according to the module-level generator. *)
Lemma tie_break_source_is_global : ~ tie_break_source_injected.
Proof.
  intros H.
  specialize (H {| lidar_data := Some open_scan; state := TURNING;
                   backup_time := 2.0 |}
                (constant_random 0.9) (constant_random 0.1)).
  vm_compute in H. discriminate.
Qed.

Lemma summary_equal (msg : LaserScan) :
  equal (summary msg)
  = negb (left_better (summary msg)) && negb (right_better (summary msg)).
Proof. unfold summary. cbn [equal left_better right_better]. reflexivity. Qed.

Lemma equal_sides (self : SmartSafeMapper) (s : Sectors) :
  get_safe_directions self = Ok (Some s) -> equal s = true ->
  left_better s = false /\ right_better s = false.
Proof.
  intros Hs He.
  destruct (get_safe_directions_inv self Hs) as (msg & _ & _ & Hsum).
  subst s. rewrite summary_equal in He.
  apply andb_true_iff in He. destruct He as [Hl Hr].
  apply negb_true_iff in Hl, Hr. auto.
Qed.

(** C8, amended.  For every summary with [equal] true, in the two places
    that steer (EXPLORING with [0.3 <= front < 0.7], and TURNING), the turn
    rate is decided by one draw [u] of the module-level generator
    [random.random()], which the tick consumes: [+0.8] when [u > 0.5] and
    [-0.8] otherwise.  So with the draw fixed to a "left" value the sign is
    deterministically [+1]. *)
Theorem tie_break_by_global_draw
  (self : SmartSafeMapper) (g : Random) (s : Sectors) :
  get_safe_directions self = Ok (Some s) ->
  equal s = true ->
  state self = TURNING \/
  (state self = EXPLORING /\
   (front s <? 0.3)%float = false /\ (front s <? 0.7)%float = true) ->
  let u := draws g (taken g) in
  exists self' c,
    control_loop self g
    = Ok (self', {| draws := draws g; taken := S (taken g) |}, Some c) /\
    angular_z c = (if (0.5 <? u)%float then 0.8 else - 0.8)%float /\
    ((0.5 <? u)%float = true -> angular_z c = 0.8%float).
Proof.
  intros Hs He Hst u.
  destruct (equal_sides self Hs He) as [Hl Hr].
  assert (Hsteer : steer s (next_draw g)
                   = (if (0.5 <? u)%float then 0.8 else - 0.8)%float).
  { unfold steer. rewrite Hl, Hr. reflexivity. }
  assert (Hg : after_steer s g = {| draws := draws g; taken := S (taken g) |}).
  { unfold after_steer. rewrite Hl, Hr. reflexivity. }
  destruct Hst as [Hst | (Hst & H3 & H7)].
  - rewrite (control_loop_turning self g Hs Hst), Hg.
    do 2 eexists. split; [reflexivity|]. cbn [angular_z]. rewrite Hsteer.
    split; [reflexivity|]. intros ->. reflexivity.
  - rewrite (control_loop_exploring self g Hs Hst), H3, H7, Hg.
    do 2 eexists. split; [reflexivity|]. cbn [angular_z]. rewrite Hsteer.
    split; [reflexivity|]. intros ->. reflexivity.
Qed.

Lemma tie_break_by_global_draw_witness :
  exists self' c,
    control_loop {| lidar_data := Some open_scan; state := TURNING;
                    backup_time := 2.0 |} (constant_random 0.9)
    = Ok (self', {| draws := fun _ => 0.9%float; taken := 1 |}, Some c) /\
    angular_z c = 0.8%float /\
    ((0.5 <? 0.9)%float = true -> angular_z c = 0.8%float).
Proof.
  apply (@tie_break_by_global_draw
           {| lidar_data := Some open_scan; state := TURNING;
              backup_time := 2.0 |} (constant_random 0.9)
           (summary open_scan)).
  - vm_compute. reflexivity.
  - vm_compute. reflexivity.
  - left. reflexivity.
Defined.

(** ** C1: the sector windows *)

Lemma In_py_range (lo hi : nat) (d : Z) :
  lo <= hi -> In d (py_range lo hi) <-> (Z.of_nat lo <= d < Z.of_nat hi)%Z.
Proof.
  intros Hle. unfold py_range. rewrite in_map_iff. split.
  - intros (n & <- & Hn). apply in_seq in Hn. lia.
  - intros Hd. exists (Z.to_nat d). split; [lia|]. apply in_seq. lia.
Qed.

Lemma In_front_window (d : Z) :
  In d front_window <-> (0 <= d < 30 \/ 330 <= d < 360)%Z.
Proof.
  unfold front_window. rewrite in_app_iff, !In_py_range by lia. reflexivity.
Qed.

Lemma In_adjusted (window : list Z) (N i : Z) :
  In i (map (fun d => (d mod N)%Z) window)
  <-> exists d, In d window /\ i = (d mod N)%Z.
Proof.
  rewrite in_map_iff. split; intros (d & H1 & H2); exists d; auto.
Qed.

(** On a 720-sample scan the index lists are not the scaled windows: the
    "front" list holds index 330, which is 165 degrees, while 330 degrees
    scales to index 660. *)
Lemma sectors_not_scaled_720 : ~ sectors_scaled 720.
Proof.
  intros H.
  destruct (H _ _ _ (adjust_ok front_window (n := 720) ltac:(discriminate))
                    (adjust_ok left_window (n := 720) ltac:(discriminate))
                    (adjust_ok right_window (n := 720) ltac:(discriminate))
                    330%Z) as [[Hf _] _].
  assert (Hin : In 330%Z (map (fun i => (i mod 720)%Z) front_window)).
  { apply In_adjusted. exists 330%Z. split; [|reflexivity].
    apply In_front_window. lia. }
  destruct (Hf Hin) as [_ Hw].
  change (scaled_index 720 330) with 660%Z in Hw.
  change (scaled_index 720 30) with 60%Z in Hw.
  cbn [Z.ltb Z.compare Pos.compare Pos.compare_cont] in Hw. lia.
Qed.

(** What the index lists are, for every scan of length [N >= 1]: the fixed
    raw windows (front 0..29 and 330..359, left 60..119, right 240..299)
    reduced modulo [N], every index in [[0, N)].  For [N = 360], one sample
    per degree, they are exactly the degree windows front +-30, left 60 to
    120 and right 240 to 300, the front one wrapping around index 0. *)
Theorem sector_indices_raw (N : Z) :
  (0 < N)%Z ->
  exists f l r,
    adjust front_window N = Ok f /\
    adjust left_window N = Ok l /\
    adjust right_window N = Ok r /\
    (forall i, In i f <->
       exists d, (0 <= d < 30 \/ 330 <= d < 360)%Z /\ i = (d mod N)%Z) /\
    (forall i, In i l <-> exists d, (60 <= d < 120)%Z /\ i = (d mod N)%Z) /\
    (forall i, In i r <-> exists d, (240 <= d < 300)%Z /\ i = (d mod N)%Z) /\
    (forall i, In i (f ++ l ++ r) -> (0 <= i < N)%Z) /\
    (N = 360%Z -> sectors_scaled N).
Proof.
  intros HN.
  assert (Hn : N <> 0%Z) by lia.
  assert (Hf : forall i, In i (map (fun d => (d mod N)%Z) front_window) <->
               exists d, (0 <= d < 30 \/ 330 <= d < 360)%Z /\ i = (d mod N)%Z).
  { intros i. rewrite In_adjusted. split; intros (d & H1 & H2); exists d;
      (split; [apply In_front_window|]; assumption). }
  assert (Hl : forall i, In i (map (fun d => (d mod N)%Z) left_window) <->
               exists d, (60 <= d < 120)%Z /\ i = (d mod N)%Z).
  { intros i. rewrite In_adjusted. unfold left_window.
    split; intros (d & H1 & H2); exists d;
      (split; [apply (In_py_range d (lo := 60) (hi := 120)); [lia|]|]; assumption). }
  assert (Hr : forall i, In i (map (fun d => (d mod N)%Z) right_window) <->
               exists d, (240 <= d < 300)%Z /\ i = (d mod N)%Z).
  { intros i. rewrite In_adjusted. unfold right_window.
    split; intros (d & H1 & H2); exists d;
      (split; [apply (In_py_range d (lo := 240) (hi := 300)); [lia|]|]; assumption). }
  do 3 eexists.
  split; [apply adjust_ok; assumption|].
  split; [apply adjust_ok; assumption|].
  split; [apply adjust_ok; assumption|].
  split; [exact Hf|]. split; [exact Hl|]. split; [exact Hr|]. split.
  - intros i Hi. rewrite !in_app_iff, Hf, Hl, Hr in Hi.
    destruct Hi as [(d & _ & ->) | [(d & _ & ->) | (d & _ & ->)]];
      apply Z.mod_pos_bound; assumption.
  - intros -> f l r Ef El Er i.
    rewrite adjust_ok in Ef, El, Er by assumption.
    injection Ef as <-. injection El as <-. injection Er as <-.
    rewrite Hf, Hl, Hr. unfold scaled_window.
    change (scaled_index 360 330) with 330%Z.
    change (scaled_index 360 30) with 30%Z.
    change (scaled_index 360 60) with 60%Z.
    change (scaled_index 360 120) with 120%Z.
    change (scaled_index 360 240) with 240%Z.
    change (scaled_index 360 300) with 300%Z.
    cbn [Z.ltb Z.compare Pos.compare Pos.compare_cont].
    split; [|split]; split;
      solve [ intros (d & Hd & ->); rewrite Z.mod_small by lia; lia
            | intros Hi; exists i; rewrite Z.mod_small by lia; lia ].
Qed.

Lemma sector_indices_raw_witness :
  exists f l r,
    adjust front_window 360 = Ok f /\
    adjust left_window 360 = Ok l /\
    adjust right_window 360 = Ok r /\
    (forall i, In i f <->
       exists d, (0 <= d < 30 \/ 330 <= d < 360)%Z /\ i = (d mod 360)%Z) /\
    (forall i, In i l <-> exists d, (60 <= d < 120)%Z /\ i = (d mod 360)%Z) /\
    (forall i, In i r <-> exists d, (240 <= d < 300)%Z /\ i = (d mod 360)%Z) /\
    (forall i, In i (f ++ l ++ r) -> (0 <= i < 360)%Z) /\
    (360%Z = 360%Z -> sectors_scaled 360).
Proof.
  apply (sector_indices_raw (N := 360)). reflexivity.
Defined.

(** C1 (the code departs from it).  The claim, and the comments of
    [get_safe_directions] ("front: -30 to +30 degrees", "adjust the indices
    to the length of the array"), say the front sector is the window of +-30
    degrees whatever the length of the scan.  On a scan of 720 samples the
    index list is still 0..29 and 330..359: it holds index 330 (165 degrees)
    and misses index 690 (345 degrees), which the window scaled to 720
    samples holds.  So an exploring node drives at full speed towards an
    obstacle 0.2 m away, 15 degrees right of straight ahead, and backs up
    from one that is behind it. *)
Theorem front_sector_720_misplaced (g : Random) :
  adjust front_window 720 = Ok front_window /\
  In 330%Z front_window /\ ~ In 690%Z front_window /\
  ~ scaled_window 720 330 30 330 /\ scaled_window 720 330 30 690 /\
  ~ sectors_scaled 720 /\
  control_loop {| lidar_data := Some front_obstacle_720; state := EXPLORING;
                  backup_time := 0.0 |} g
  = Ok ({| lidar_data := Some front_obstacle_720; state := EXPLORING;
           backup_time := 0.0 |}, g,
        Some {| linear_x := 0.12; angular_z := 0.0 |}) /\
  control_loop {| lidar_data := Some rear_obstacle_720; state := EXPLORING;
                  backup_time := 0.0 |} g
  = Ok ({| lidar_data := Some rear_obstacle_720; state := BACKING_UP;
           backup_time := 0.0 |}, g,
        Some {| linear_x := (- 0.1)%float; angular_z := 0.0 |}).
Proof.
  assert (Hadj : adjust front_window 720 = Ok front_window)
    by (vm_compute; reflexivity).
  assert (H330 : In 330%Z front_window) by (apply In_front_window; lia).
  assert (H690 : ~ In 690%Z front_window).
  { intros H. apply In_front_window in H. lia. }
  assert (Hw330 : ~ scaled_window 720 330 30 330).
  { unfold scaled_window.
    change (scaled_index 720 330) with 660%Z.
    change (scaled_index 720 30) with 60%Z.
    cbn [Z.ltb Z.compare Pos.compare Pos.compare_cont]. lia. }
  assert (Hw690 : scaled_window 720 330 30 690).
  { unfold scaled_window.
    change (scaled_index 720 330) with 660%Z.
    change (scaled_index 720 30) with 60%Z.
    cbn [Z.ltb Z.compare Pos.compare Pos.compare_cont]. lia. }
  split; [exact Hadj|]. split; [exact H330|]. split; [exact H690|].
  split; [exact Hw330|]. split; [exact Hw690|]. split.
  - intros H.
    destruct (H _ _ _ Hadj
                (adjust_ok left_window (n := 720) ltac:(discriminate))
                (adjust_ok right_window (n := 720) ltac:(discriminate))
                690%Z) as [[_ Hf] _].
    exact (H690 (Hf Hw690)).
  - split.
    + rewrite (@control_loop_exploring
                 {| lidar_data := Some front_obstacle_720; state := EXPLORING;
                    backup_time := 0.0 |} g (summary front_obstacle_720));
        [vm_compute; reflexivity | vm_compute; reflexivity | reflexivity].
    + rewrite (@control_loop_exploring
                 {| lidar_data := Some rear_obstacle_720; state := EXPLORING;
                    backup_time := 0.0 |} g (summary rear_obstacle_720));
        [vm_compute; reflexivity | vm_compute; reflexivity | reflexivity].
Qed.

(** ** C5: the range of a sector minimum *)

Lemma py_min_from_In (l : list float) :
  forall cur, In (py_min_from cur l) (cur :: l).
Proof.
  induction l as [|x t IH]; intros cur; cbn [py_min_from]; [left; reflexivity|].
  destruct (IH (if (x <? cur)%float then x else cur)) as [H | H].
  - destruct (x <? cur)%float; rewrite <- H; [right; left | left]; reflexivity.
  - right. right. assumption.
Qed.

Lemma py_min_from_le (l : list float) :
  forall cur,
  (forall x, In x (cur :: l) -> is_nan x = false) ->
  forall y, In y (cur :: l) -> (py_min_from cur l <=? y)%float = true.
Proof.
  induction l as [|x t IH]; intros cur Hnan y Hy; cbn [py_min_from].
  - destruct Hy as [<- | []]. apply FloatOrder.leb_refl, Hnan. left. reflexivity.
  - set (c := if (x <? cur)%float then x else cur).
    assert (Hx : is_nan x = false) by (apply Hnan; right; left; reflexivity).
    assert (Hc : is_nan cur = false) by (apply Hnan; left; reflexivity).
    assert (Hcc : (c <=? cur)%float = true /\ (c <=? x)%float = true).
    { subst c. destruct (x <? cur)%float eqn:E.
      - split; [apply FloatOrder.ltb_leb, E | apply FloatOrder.leb_refl, Hx].
      - split; [apply FloatOrder.leb_refl, Hc
               | apply FloatOrder.not_ltb_leb; assumption]. }
    assert (Hn' : forall z, In z (c :: t) -> is_nan z = false).
    { intros z [<- | Hz].
      - subst c. destruct (x <? cur)%float; assumption.
      - apply Hnan. right. right. assumption. }
    pose proof (IH c Hn' c (or_introl eq_refl)) as Hmc.
    destruct Hy as [<- | [<- | Hy]].
    + exact (FloatOrder.leb_trans Hmc (proj1 Hcc)).
    + exact (FloatOrder.leb_trans Hmc (proj2 Hcc)).
    + apply (IH c Hn'). right. assumption.
Qed.

Lemma valid_range_true (msg : LaserScan) (r : float) :
  valid_range msg r = true <->
  is_nan r = false /\ (0.1 <? r)%float = true /\ (r <? range_max msg)%float = true.
Proof.
  unfold valid_range. rewrite !andb_true_iff, negb_true_iff. tauto.
Qed.


Lemma sector_min_value (msg : LaserScan) (window : list Z) :
  sector_value msg window (sector_min msg window).
Proof.
  unfold sector_value, sector_min.
  destruct (filter (valid_range msg) (sector_samples msg window))
    as [|x t] eqn:E; [left; auto|right].
  assert (Hv : forall r, In r (x :: t) -> valid_range msg r = true).
  { intros r Hr. rewrite <- E in Hr. apply filter_In in Hr. tauto. }
  pose proof (py_min_from_In t x) as Hin.
  destruct (proj1 (valid_range_true msg _) (Hv _ Hin)) as (_ & H1 & H2).
  split; [assumption|]. split; [assumption|]. split; [assumption|].
  apply py_min_from_le. intros z Hz.
  apply (proj1 (valid_range_true msg z) (Hv z Hz)).
Qed.



(** ** C4: the hysteresis flags *)

(** C4, as stated, fails: on [unbounded_scan] both side minima are [inf],
    their difference is NaN, [equal] is true, and [|NaN| <= 0.3] is false. *)
Lemma hysteresis_flags_fail_unbounded :
  get_safe_directions {| lidar_data := Some unbounded_scan; state := EXPLORING;
                         backup_time := 0.0 |}
  = Ok (Some (summary unbounded_scan)) /\
  equal (summary unbounded_scan) = true /\
  (abs (left (summary unbounded_scan) - right (summary unbounded_scan))
   <=? 0.3)%float = false /\
  ~ hysteresis_flags (summary unbounded_scan).
Proof.
  assert (He : equal (summary unbounded_scan) = true)
    by (vm_compute; reflexivity).
  assert (Ha : (abs (left (summary unbounded_scan)
                     - right (summary unbounded_scan)) <=? 0.3)%float = false)
    by (vm_compute; reflexivity).
  split; [vm_compute; reflexivity|]. split; [exact He|]. split; [exact Ha|].
  intros (_ & _ & _ & [H _]). rewrite (H He) in Ha. discriminate Ha.
Qed.

Lemma sector_value_finite (msg : LaserScan) (window : list Z) (v : float) :
  is_finite (range_max msg) = true -> sector_value msg window v ->
  sf_finite (Prim2SF v).
Proof.
  intros Hf [[_ ->] | (_ & H1 & H2 & _)].
  - apply FloatSub.is_finite_sf, Hf.
  - exact (FloatSub.between_sf H1 H2).
Qed.

Lemma summary_flags (msg : LaserScan) :
  left_better (summary msg)
  = (0.3 <? left (summary msg) - right (summary msg))%float /\
  right_better (summary msg)
  = (0.3 <? right (summary msg) - left (summary msg))%float.
Proof.
  unfold summary. cbn [left right left_better right_better].
  split; reflexivity.
Qed.

Lemma summary_side_values (msg : LaserScan) :
  sector_value msg left_window (left (summary msg)) /\
  sector_value msg right_window (right (summary msg)).
Proof.
  unfold summary. cbn [left right]. split; apply sector_min_value.
Qed.

(** The three flags computed from two side minima [l] and [r]. *)
Lemma flags_of_minima (l r : float) :
  let lb := (0.3 <? l - r)%float in
  let rb := (0.3 <? r - l)%float in
  exactly_one lb rb (negb lb && negb rb) /\
  (is_nan (l - r) = false ->
   (negb lb && negb rb = true <-> (abs (l - r) <=? 0.3)%float = true)) /\
  (is_nan (l - r) = true -> negb lb && negb rb = true).
Proof.
  intros lb rb. subst lb rb.
  pose proof (@FloatSub.sub_swap_exclusive l r) as Hex.
  split; [|split].
  - unfold exactly_one.
    destruct (0.3 <? l - r)%float eqn:El.
    + rewrite (Hex eq_refl). auto.
    + destruct (0.3 <? r - l)%float; auto.
  - intros Hn. rewrite <- (@FloatSub.sub_swap_abs l r Hn).
    rewrite andb_true_iff, !negb_true_iff. reflexivity.
  - intros Hn.
    destruct (0.3 <? l - r)%float eqn:El.
    { apply FloatOrder.ltb_not_nan in El. destruct El; congruence. }
    destruct (0.3 <? r - l)%float eqn:Er; [|reflexivity].
    exfalso. apply FloatOrder.ltb_not_nan in Er. destruct Er as [_ Er].
    apply FloatOrder.is_nan_false in Er. apply Er.
    apply FloatOrder.is_nan_spec in Hn.
    rewrite sub_spec in *.
    destruct (FloatSub.SFsub_swap prec emax (Prim2SF l) (Prim2SF r))
      as [Ho | (s1 & s2 & Hz & _)].
    + unfold SF64sub. rewrite Ho. unfold SF64sub in Hn. rewrite Hn. reflexivity.
    + unfold SF64sub in Hn. congruence.
Qed.

(** C4, amended.  For every summary produced from a scan, exactly one of
    [left_better], [right_better], [equal] is true, with [left_better] iff
    [left - right > 0.3] and [right_better] iff [right - left > 0.3].
    [equal] holds iff [|left - right| <= 0.3] whenever [left - right] is a
    number, which is the case whenever the scan's [range_max] is finite;
    when [left - right] is NaN, [equal] is true. *)
Theorem hysteresis_flags_amended
  (self : SmartSafeMapper) (msg : LaserScan) (s : Sectors) :
  lidar_data self = Some msg ->
  get_safe_directions self = Ok (Some s) ->
  exactly_one (left_better s) (right_better s) (equal s) /\
  (left_better s = true <-> (0.3 <? left s - right s)%float = true) /\
  (right_better s = true <-> (0.3 <? right s - left s)%float = true) /\
  (is_nan (left s - right s) = false ->
   (equal s = true <-> (abs (left s - right s) <=? 0.3)%float = true)) /\
  (is_nan (left s - right s) = true -> equal s = true) /\
  (is_finite (range_max msg) = true -> is_nan (left s - right s) = false).
Proof.
  intros Hd Hs.
  destruct (get_safe_directions_inv self Hs) as (msg' & Hd' & _ & Hsum).
  rewrite Hd in Hd'. injection Hd' as <-.
  destruct (summary_flags msg) as [Hlb Hrb].
  destruct (summary_side_values msg) as [Vl Vr].
  pose proof (summary_equal msg) as Heq.
  rewrite <- Hsum in Hlb, Hrb, Vl, Vr, Heq. clear Hsum Hs Hd.
  destruct (flags_of_minima (left s) (right s)) as (H1 & H2 & H3).
  rewrite Heq, Hlb, Hrb.
  split; [exact H1|]. split; [reflexivity|]. split; [reflexivity|].
  split; [exact H2|]. split; [exact H3|].
  intros Hf. apply FloatSub.sub_not_nan.
  - exact (sector_value_finite Hf Vl).
  - exact (sector_value_finite Hf Vr).
Qed.

Lemma hysteresis_flags_amended_witness :
  hysteresis_flags (summary open_scan).
Proof.
  destruct (@hysteresis_flags_amended
              {| lidar_data := Some open_scan; state := EXPLORING;
                 backup_time := 0.0 |} open_scan (summary open_scan)
              eq_refl ltac:(vm_compute; reflexivity))
    as (H1 & H2 & H3 & H4 & _ & H6).
  split; [exact H1|]. split; [exact H2|]. split; [exact H3|].
  apply H4, H6. vm_compute. reflexivity.
Defined.

(** * Further properties of the node *)

(** ** What a tick can raise *)

Lemma get_safe_directions_cases (self : SmartSafeMapper) :
  (lidar_data self = None /\ get_safe_directions self = Ok None) \/
  (exists msg, lidar_data self = Some msg /\ ranges msg = [] /\
               get_safe_directions self = Raise ZeroDivisionError) \/
  (exists msg, lidar_data self = Some msg /\ ranges msg <> [] /\
               get_safe_directions self = Ok (Some (summary msg))).
Proof.
  destruct (lidar_data self) as [msg|] eqn:Hd.
  - right. destruct (ranges msg) as [|r rs] eqn:Hr.
    + left. exists msg. split; [reflexivity|]. split; [exact Hr|].
      exact (get_safe_directions_empty self Hd Hr).
    + right. exists msg. assert (Hne : ranges msg <> []) by congruence.
      split; [reflexivity|]. split; [exact Hne|].
      exact (get_safe_directions_ok self Hd Hne).
  - left. split; [reflexivity|]. unfold get_safe_directions. rewrite Hd.
    reflexivity.
Qed.

Lemma control_loop_raises (self : SmartSafeMapper) (g : Random) (e : exn) :
  get_safe_directions self = Raise e -> control_loop self g = Raise e.
Proof.
  intros H. unfold control_loop.
  destruct (lidar_data self) eqn:Hd.
  - rewrite H. reflexivity.
  - unfold get_safe_directions in H. rewrite Hd in H. discriminate.
Qed.

(** The only exception a tick can raise is [ZeroDivisionError], and it
    raises it exactly when the stored scan has no samples; [ranges[idx]] is
    never out of range. *)
Theorem control_loop_raises_iff
  (self : SmartSafeMapper) (g : Random) (e : exn) :
  control_loop self g = Raise e <->
  e = ZeroDivisionError /\
  exists msg, lidar_data self = Some msg /\ ranges msg = [].
Proof.
  destruct (get_safe_directions_cases self)
    as [[Hd Hs] | [(msg & Hd & Hr & Hs) | (msg & Hd & Hr & Hs)]].
  - rewrite (control_loop_no_scan self g Hd). split; [discriminate|].
    intros (_ & m & Hm & _). congruence.
  - rewrite (control_loop_raises self g Hs). split.
    + intros H. injection H as <-. eauto.
    + intros [-> _]. reflexivity.
  - destruct (@control_loop_total self g msg Hd Hr) as (s' & g' & c & Hc).
    rewrite Hc. split; [discriminate|].
    intros (_ & m & Hm & Hm'). congruence.
Qed.

(** ** Scan deliveries *)

(** Only the latest scan counts: scans delivered before another scan, with
    no tick in between, leave no trace. *)
Theorem latest_scan_wins
  (self : SmartSafeMapper) (g : Random)
  (older : list LaserScan) (msg : LaserScan) (evs : list event) :
  spin self g (map Scan older ++ Scan msg :: evs) = spin self g (Scan msg :: evs).
Proof.
  revert self. induction older as [|m ms IH]; intros self; [reflexivity|].
  cbn [map app spin]. rewrite IH. reflexivity.
Qed.

(** ** One tick, whatever the state *)

Lemma control_loop_inv
  (self self' : SmartSafeMapper) (g g' : Random) (o : option Twist) :
  control_loop self g = Ok (self', g', o) ->
  (lidar_data self = None /\ self' = self /\ g' = g /\ o = None) \/
  (exists msg, lidar_data self = Some msg /\ ranges msg <> [] /\
               get_safe_directions self = Ok (Some (summary msg))).
Proof.
  intros H.
  destruct (get_safe_directions_cases self)
    as [[Hd Hs] | [(msg & Hd & Hr & Hs) | (msg & Hd & Hr & Hs)]].
  - left. rewrite (control_loop_no_scan self g Hd) in H.
    injection H as <- <- <-. auto.
  - rewrite (control_loop_raises self g Hs) in H. discriminate.
  - right. eauto.
Qed.

Lemma control_loop_keeps_scan
  (self self' : SmartSafeMapper) (g g' : Random) (o : option Twist) :
  control_loop self g = Ok (self', g', o) -> lidar_data self' = lidar_data self.
Proof.
  intros H.
  destruct (control_loop_inv self g H) as [(_ & -> & _) | (msg & Hd & Hr & Hs)];
    [reflexivity|].
  destruct (state self) eqn:Hst.
  - rewrite (control_loop_exploring self g Hs Hst) in H.
    destruct (front (summary msg) <? 0.3)%float;
      [|destruct (front (summary msg) <? 0.7)%float];
      injection H as <- _ _; reflexivity.
  - rewrite (control_loop_backing_up self g Hs Hst) in H.
    injection H as <- _ _. reflexivity.
  - rewrite (control_loop_turning self g Hs Hst) in H.
    injection H as <- _ _. reflexivity.
Qed.

(** A tick never touches the stored scan and only moves along the cycle
    EXPLORING, BACKING_UP, TURNING, EXPLORING; the timer is reset to 0 on the
    way into BACKING_UP, advances by 0.1 s in BACKING_UP and TURNING, and is
    left alone otherwise. *)
Theorem tick_transitions
  (self self' : SmartSafeMapper) (g g' : Random) (o : option Twist) :
  control_loop self g = Ok (self', g', o) ->
  lidar_data self' = lidar_data self /\
  transition_ok (state self) (state self') /\
  (state self = EXPLORING ->
     (state self' = EXPLORING /\ backup_time self' = backup_time self) \/
     (state self' = BACKING_UP /\ backup_time self' = 0.0%float)) /\
  (state self <> EXPLORING -> o <> None ->
     backup_time self' = (backup_time self + 0.1)%float).
Proof.
  intros H.
  destruct (control_loop_inv self g H) as [(Hd & -> & _ & ->) | (msg & Hd & Hr & Hs)].
  - split; [reflexivity|]. split; [destruct (state self); exact I|].
    split; [auto|]. intros _ Hn. congruence.
  - destruct (state self) eqn:Hst.
    + rewrite (control_loop_exploring self g Hs Hst) in H.
      destruct (front (summary msg) <? 0.3)%float;
        [|destruct (front (summary msg) <? 0.7)%float];
        injection H as <- _ _; cbn [lidar_data state backup_time];
        rewrite ?Hst; repeat split; auto; congruence.
    + rewrite (control_loop_backing_up self g Hs Hst) in H.
      injection H as <- _ _. cbn [lidar_data state backup_time].
      split; [reflexivity|]. split.
      * destruct (1.5 <=? backup_time self + 0.1)%float; exact I.
      * split; [discriminate | reflexivity].
    + rewrite (control_loop_turning self g Hs Hst) in H.
      injection H as <- _ _. cbn [lidar_data state backup_time].
      split; [reflexivity|]. split.
      * destruct (3.5 <=? backup_time self + 0.1)%float; exact I.
      * split; [discriminate | reflexivity].
Qed.

Lemma tick_transitions_witness :
  lidar_data {| lidar_data := Some wall_scan; state := BACKING_UP;
                backup_time := 0.0 |} = Some wall_scan /\
  transition_ok EXPLORING BACKING_UP.
Proof.
  destruct (@tick_transitions
              {| lidar_data := Some wall_scan; state := EXPLORING;
                 backup_time := 0.0 |}
              {| lidar_data := Some wall_scan; state := BACKING_UP;
                 backup_time := 0.0 |}
              (constant_random 0.9) (constant_random 0.9)
              (Some {| linear_x := (- 0.1)%float; angular_z := 0.0 |})
              ltac:(vm_compute; reflexivity)) as (H1 & H2 & _).
  split; [exact H1 | exact H2].
Defined.

Lemma steer_values (s : Sectors) (u : float) :
  steer s u = 0.8%float \/ steer s u = (- 0.8)%float.
Proof.
  unfold steer, turn_speed.
  destruct (left_better s), (right_better s), (0.5 <? u)%float; auto.
Qed.

Lemma control_loop_allowed
  (self self' : SmartSafeMapper) (g g' : Random) (c : Twist) :
  control_loop self g = Ok (self', g', Some c) -> allowed_command c.
Proof.
  intros H.
  destruct (control_loop_inv self g H) as [(_ & _ & _ & Hn) | (msg & Hd & Hr & Hs)];
    [discriminate|].
  unfold allowed_command. destruct (state self) eqn:Hst.
  - rewrite (control_loop_exploring self g Hs Hst) in H.
    destruct (front (summary msg) <? 0.3)%float;
      [|destruct (front (summary msg) <? 0.7)%float];
      injection H as _ _ <-; auto.
    right. right. cbn [linear_x angular_z]. split; [auto|apply steer_values].
  - rewrite (control_loop_backing_up self g Hs Hst) in H.
    injection H as _ _ <-. auto.
  - rewrite (control_loop_turning self g Hs Hst) in H.
    injection H as _ _ <-. right. right. cbn [linear_x angular_z].
    split; [auto|apply steer_values].
Qed.

Lemma spin_tick_inv
  (self s' : SmartSafeMapper) (g g' : Random) (evs : list event)
  (out : list Twist) :
  spin self g (Tick :: evs) = Ok (s', g', out) ->
  exists self1 g1 o outs,
    control_loop self g = Ok (self1, g1, o) /\
    spin self1 g1 evs = Ok (s', g', outs) /\
    out = match o with Some c => c :: outs | None => outs end.
Proof.
  cbn [spin]. destruct (control_loop self g) as [[[self1 g1] o]|e] eqn:Hc;
    cbn [bind]; [|discriminate].
  destruct (spin self1 g1 evs) as [[[self2 g2] outs]|e] eqn:Hs; cbn [bind];
    [|discriminate].
  intros H. injection H as <- <- <-. exists self1, g1, o, outs.
  split; [reflexivity|]. split; [exact Hs | reflexivity].
Qed.

Lemma spin_allowed (evs : list event) :
  forall (self s' : SmartSafeMapper) (g g' : Random) (out : list Twist),
  spin self g evs = Ok (s', g', out) -> Forall allowed_command out.
Proof.
  induction evs as [|e evs IH]; intros self s' g g' out H.
  - injection H as _ _ <-. constructor.
  - destruct e as [msg|].
    + exact (IH _ _ _ _ _ H).
    + destruct (spin_tick_inv self g evs H)
        as (self1 & g1 & o & outs & Hc & Hs & ->).
      pose proof (IH _ _ _ _ _ Hs) as Houts.
      destruct o as [c|]; [|assumption].
      constructor; [exact (control_loop_allowed self g Hc) | assumption].
Qed.

Lemma creeping_speed_differs : (0.12 * 0.3)%float <> 0.12%float.
Proof.
  intros H. apply (f_equal (fun x => (x <? 0.1)%float)) in H.
  vm_compute in H. discriminate.
Qed.

(** Every command a run publishes is one of: back up at 0.1 m/s, full speed
    ahead at 0.12 m/s, or a turn at 0.8 rad/s either way while creeping at
    [0.12 * 0.3] m/s or standing.  So the linear velocity stays within
    [[-0.1, 0.12]], the turn rate within [[-0.8, 0.8]], and the node never
    turns while at full speed or while reversing. *)
Theorem published_commands_allowed
  (self s' : SmartSafeMapper) (g g' : Random) (evs : list event)
  (out : list Twist) :
  spin self g evs = Ok (s', g', out) ->
  Forall (fun c =>
            allowed_command c /\
            (- 0.1 <=? linear_x c)%float = true /\
            (linear_x c <=? 0.12)%float = true /\
            (abs (angular_z c) <=? 0.8)%float = true /\
            ((linear_x c <? 0)%float = true \/ linear_x c = 0.12%float ->
             angular_z c = 0.0%float)) out.
Proof.
  intros H. apply (Forall_impl _ (P := allowed_command));
    [|exact (spin_allowed evs self g H)].
  intros c Hc. split; [exact Hc|].
  pose proof creeping_speed_differs as N2.
  destruct Hc as [-> | [-> | [[Hl | Hl] [Ha | Ha]]]];
    cbn [linear_x angular_z]; rewrite ?Hl, ?Ha;
    repeat split; try (vm_compute; reflexivity);
    intros [E | E]; try (vm_compute in E; discriminate);
    try contradiction.
  all: apply (f_equal Prim2SF) in E; vm_compute in E; discriminate.
Qed.

Lemma published_commands_allowed_witness :
  Forall (fun c =>
            allowed_command c /\
            (- 0.1 <=? linear_x c)%float = true /\
            (linear_x c <=? 0.12)%float = true /\
            (abs (angular_z c) <=? 0.8)%float = true /\
            ((linear_x c <? 0)%float = true \/ linear_x c = 0.12%float ->
             angular_z c = 0.0%float))
         [{| linear_x := (- 0.1)%float; angular_z := 0.0 |};
          {| linear_x := (- 0.1)%float; angular_z := 0.0 |}].
Proof.
  apply (@published_commands_allowed
           {| lidar_data := None; state := EXPLORING; backup_time := 0.0 |}
           {| lidar_data := Some wall_scan; state := BACKING_UP;
              backup_time := 0.1 |}
           (constant_random 0.9) (constant_random 0.9)
           [Tick; Scan wall_scan; Tick; Tick]).
  vm_compute. reflexivity.
Defined.

(** ** How many commands a run publishes *)

Lemma lidar_callback_fields (self : SmartSafeMapper) (msg : LaserScan) :
  lidar_data (lidar_callback self msg) = Some msg /\
  state (lidar_callback self msg) = state self /\
  backup_time (lidar_callback self msg) = backup_time self.
Proof. repeat split. Qed.

Lemma spin_with_scan (evs : list event) :
  forall (self : SmartSafeMapper) (g : Random) (msg : LaserScan),
  lidar_data self = Some msg -> ranges msg <> [] -> scans_nonempty evs ->
  exists s' g' out,
    spin self g evs = Ok (s', g', out) /\ length out = count_ticks evs.
Proof.
  induction evs as [|e evs IH]; intros self g msg Hd Hr Hne.
  - exists self, g, []. split; reflexivity.
  - assert (Hne' : scans_nonempty evs).
    { intros m Hin. apply Hne. right. assumption. }
    destruct e as [m|].
    + cbn [spin]. change (count_ticks (Scan m :: evs)) with (count_ticks evs).
      apply (IH _ g m); [reflexivity | apply Hne; left; reflexivity | exact Hne'].
    + destruct (@control_loop_total self g msg Hd Hr) as (self1 & g1 & c & Hc).
      pose proof (control_loop_keeps_scan self g Hc) as Hd1.
      rewrite Hd in Hd1.
      destruct (IH self1 g1 msg Hd1 Hr Hne') as (s' & g' & out & Hs & Hl).
      exists s', g', (c :: out). cbn [spin]. rewrite Hc. cbn [bind].
      rewrite Hs. cbn [bind]. split; [reflexivity|].
      change (count_ticks (Tick :: evs)) with (S (count_ticks evs)).
      cbn [length]. rewrite Hl. reflexivity.
Qed.

(** From start-up, over any trace whose scans all have at least one sample,
    every tick returns, and the node publishes exactly one command for each
    tick that comes after the first scan and none for the ticks before it. *)
Theorem one_command_per_tick (g : Random) (evs : list event) :
  scans_nonempty evs ->
  exists s' g' out,
    spin init g evs = Ok (s', g', out) /\
    length out = ticks_after_first_scan evs.
Proof.
  induction evs as [|e evs IH]; intros Hne.
  - exists init, g, []. split; reflexivity.
  - assert (Hne' : scans_nonempty evs).
    { intros m Hin. apply Hne. right. assumption. }
    destruct e as [m|].
    + cbn [spin ticks_after_first_scan].
      apply (@spin_with_scan evs (lidar_callback init m) g m);
        [reflexivity | apply Hne; left; reflexivity | exact Hne'].
    + destruct (IH Hne') as (s' & g' & out & Hs & Hl).
      exists s', g', out. cbn [spin ticks_after_first_scan].
      rewrite (control_loop_no_scan init g eq_refl). cbn [bind].
      rewrite Hs. cbn [bind]. auto.
Qed.

Lemma one_command_per_tick_witness :
  exists s' g' out,
    spin init (constant_random 0.9) [Tick; Scan open_scan; Tick; Tick]
    = Ok (s', g', out) /\ length out = 2.
Proof.
  apply (@one_command_per_tick (constant_random 0.9)
           [Tick; Scan open_scan; Tick; Tick]).
  intros m [H|[H|[H|[H|[]]]]]; try discriminate.
  injection H as <-. discriminate.
Defined.

(** ** The timer stays on schedule *)

Lemma on_schedule_timer (k : nat) :
  k < 35 ->
  match phase k with
  | EXPLORING => True
  | BACKING_UP => (timer_after k <? 1.5)%float = true
  | TURNING => (1.5 <=? timer_after k)%float = true /\
               (timer_after k <? 3.5)%float = true
  end.
Proof.
  intros H.
  do 35 (destruct k as [|k]; [vm_compute; auto|]).
  exfalso. lia.
Qed.

Lemma on_schedule_tick
  (self self' : SmartSafeMapper) (g g' : Random) (o : option Twist) :
  on_schedule self -> control_loop self g = Ok (self', g', o) ->
  on_schedule self'.
Proof.
  intros Hon H.
  destruct (control_loop_inv self g H) as [(_ & -> & _) | (msg & Hd & Hr & Hs)];
    [assumption|].
  destruct (state self) eqn:Hst.
  - rewrite (control_loop_exploring self g Hs Hst) in H.
    destruct (front (summary msg) <? 0.3)%float;
      [|destruct (front (summary msg) <? 0.7)%float];
      injection H as <- _ _; try (left; exact Hst).
    right. exists 0. split; [lia|]. split; reflexivity.
  - destruct Hon as [Hon | (k & Hk & Hp & Ht)]; [congruence|].
    rewrite (control_loop_backing_up self g Hs Hst) in H.
    injection H as <- _ _. rewrite Ht.
    destruct (timer_thresholds Hk) as [H15 _]. rewrite H15.
    assert (Hk15 : k < 15).
    { rewrite Hst in Hp. unfold phase in Hp.
      destruct (Nat.ltb_spec k 15); [assumption|].
      destruct (k <? 35); discriminate. }
    right. exists (S k). split; [lia|]. split; [|reflexivity].
    cbn [state]. unfold phase.
    destruct (Nat.ltb_spec (S k) 15); [reflexivity|]. cbn [negb].
    destruct (Nat.ltb_spec (S k) 35); [reflexivity | exfalso; lia].
  - destruct Hon as [Hon | (k & Hk & Hp & Ht)]; [congruence|].
    rewrite (control_loop_turning self g Hs Hst) in H.
    injection H as <- _ _. rewrite Ht.
    destruct (timer_thresholds Hk) as [_ H35]. rewrite H35.
    assert (Hk15 : 15 <= k).
    { rewrite Hst in Hp. unfold phase in Hp.
      destruct (Nat.ltb_spec k 15); [discriminate|]. assumption. }
    destruct (Nat.ltb_spec (S k) 35) as [Hlt | Hge]; cbn [negb].
    + right. exists (S k). split; [lia|]. split; [|reflexivity].
      cbn [state]. unfold phase.
      destruct (Nat.ltb_spec (S k) 15); [exfalso; lia|].
      destruct (Nat.ltb_spec (S k) 35); [reflexivity | exfalso; lia].
    + left. reflexivity.
Qed.

Lemma on_schedule_spin (evs : list event) :
  forall (self s' : SmartSafeMapper) (g g' : Random) (out : list Twist),
  on_schedule self -> spin self g evs = Ok (s', g', out) -> on_schedule s'.
Proof.
  induction evs as [|e evs IH]; intros self s' g g' out Hon H.
  - injection H as <- _ _. assumption.
  - destruct e as [m|].
    + apply (IH (lidar_callback self m) s' g g' out); [exact Hon | exact H].
    + destruct (spin_tick_inv self g evs H)
        as (self1 & g1 & o & outs & Hc & Hs & _).
      exact (IH _ _ _ _ _ (@on_schedule_tick self self1 g g1 o Hon Hc) Hs).
Qed.

(** In every configuration a run reaches from start-up, the timer agrees
    with the state: [backup_time < 1.5] while BACKING_UP and
    [1.5 <= backup_time < 3.5] while TURNING, so a manoeuvre once entered is
    always 15 ticks of backing up and 20 of turning, whatever scans arrive
    and however many manoeuvres came before. *)
Theorem timer_on_schedule
  (g g' : Random) (evs : list event) (s' : SmartSafeMapper)
  (out : list Twist) :
  spin init g evs = Ok (s', g', out) ->
  timer_invariant s' /\ on_schedule s'.
Proof.
  intros H.
  assert (Hon : on_schedule s').
  { apply (@on_schedule_spin evs init s' g g' out); [left; reflexivity | exact H]. }
  split; [|exact Hon].
  unfold timer_invariant.
  destruct Hon as [-> | (k & Hk & -> & ->)]; [exact I|].
  exact (on_schedule_timer Hk).
Qed.

Lemma timer_on_schedule_witness :
  timer_invariant {| lidar_data := Some wall_scan; state := BACKING_UP;
                     backup_time := 0.1 |} /\
  on_schedule {| lidar_data := Some wall_scan; state := BACKING_UP;
                 backup_time := 0.1 |}.
Proof.
  apply (@timer_on_schedule (constant_random 0.9) (constant_random 0.9)
           [Tick; Scan wall_scan; Tick; Tick]
           {| lidar_data := Some wall_scan; state := BACKING_UP;
              backup_time := 0.1 |}
           [{| linear_x := (- 0.1)%float; angular_z := 0.0 |};
            {| linear_x := (- 0.1)%float; angular_z := 0.0 |}]).
  vm_compute. reflexivity.
Defined.

(** ** The commands of a back-up manoeuvre *)

Lemma manoeuvre_tick_command (k : nat) (self self' : SmartSafeMapper)
      (g g' : Random) (c : Twist) :
  k < 35 -> manoeuvre k self ->
  control_loop self g = Ok (self', g', Some c) -> command_at k c.
Proof.
  intros Hk ((msg & Hd & Hne) & Hst & Ht) H.
  pose proof (get_safe_directions_ok self Hd Hne) as Hs.
  unfold command_at, phase in *.
  destruct (Nat.ltb_spec k 15).
  - rewrite (control_loop_backing_up self g Hs Hst) in H.
    injection H as _ _ <-. reflexivity.
  - destruct (Nat.ltb_spec k 35); [|exfalso; lia].
    rewrite (control_loop_turning self g Hs Hst) in H.
    injection H as _ _ <-. cbn [linear_x angular_z].
    split; [reflexivity | apply steer_values].
Qed.

Lemma manoeuvre_commands (evs : list event) :
  forall (k : nat) (self s' : SmartSafeMapper) (g g' : Random)
         (out : list Twist),
  manoeuvre k self -> scans_nonempty evs -> k + count_ticks evs <= 35 ->
  spin self g evs = Ok (s', g', out) -> commands_from k out.
Proof.
  induction evs as [|e evs IH]; intros k self s' g g' out Hm Hne Hk H.
  - injection H as _ _ <-. exact I.
  - assert (Hne' : scans_nonempty evs).
    { intros m Hin. apply Hne. right. assumption. }
    destruct e as [msg|].
    + cbn [spin] in H.
      change (count_ticks (Scan msg :: evs)) with (count_ticks evs) in Hk.
      apply (IH k (lidar_callback self msg) s' g g' out); auto.
      apply manoeuvre_scan; [apply Hne; left; reflexivity | assumption].
    + change (count_ticks (Tick :: evs)) with (S (count_ticks evs)) in Hk.
      destruct (spin_tick_inv self g evs H)
        as (self1 & g1 & o & outs & Hc & Hs & ->).
      destruct (@manoeuvre_tick k self g) as (self2 & g2 & c & Hc' & Hm1);
        [lia | assumption |].
      rewrite Hc in Hc'. injection Hc' as -> -> ->.
      cbn [commands_from]. split.
      * exact (@manoeuvre_tick_command k self self2 g g2 c
                 ltac:(lia) Hm Hc).
      * apply (IH (S k) self2 s' g2 g' outs Hm1 Hne'); [lia | exact Hs].
Qed.

Lemma commands_from_nth (out : list Twist) :
  forall (k i : nat) (c : Twist),
  commands_from k out -> nth_error out i = Some c -> command_at (k + i) c.
Proof.
  induction out as [|c0 out IH]; intros k i c Hc Hn.
  - destruct i; discriminate.
  - destruct Hc as [H0 Hrest]. destruct i as [|i].
    + injection Hn as <-. rewrite Nat.add_0_r. exact H0.
    + rewrite Nat.add_succ_r. exact (IH (S k) i c Hrest Hn).
Qed.

(** From the entry into BACKING_UP, over any trace of at most 35 ticks and
    any deliveries of scans with at least one sample: every tick returns and
    publishes one command; the first 15 ticks each publish the backup
    command [{linear = -0.1, angular = 0}], and every later tick publishes a
    turn on the spot, [linear = 0] and [angular] 0.8 or -0.8; no tick of the
    manoeuvre drives forward. *)
Theorem manoeuvre_command_sequence
  (msg0 : LaserScan) (g : Random) (evs : list event) :
  ranges msg0 <> [] ->
  scans_nonempty evs ->
  count_ticks evs <= 35 ->
  exists s' g' out,
    spin {| lidar_data := Some msg0; state := BACKING_UP; backup_time := 0.0 |}
         g evs = Ok (s', g', out) /\
    length out = count_ticks evs /\
    commands_from 0 out /\
    (forall i, i < count_ticks evs ->
       exists c, nth_error out i = Some c /\ command_at i c).
Proof.
  intros H0 Hne Hk.
  assert (Hm : manoeuvre 0 {| lidar_data := Some msg0; state := BACKING_UP;
                              backup_time := 0.0 |}).
  { split; [exists msg0; auto|]. split; reflexivity. }
  destruct (@manoeuvre_spin evs 0 _ g Hm Hne Hk)
    as (s' & g' & out & Hsp & Hl & _).
  pose proof (@manoeuvre_commands evs 0 _ s' g g' out Hm Hne Hk Hsp) as Hcmds.
  exists s', g', out. split; [exact Hsp|]. split; [exact Hl|].
  split; [exact Hcmds|].
  intros i Hi. rewrite <- Hl in Hi.
  destruct (nth_error out i) as [c|] eqn:Hn.
  - exists c. split; [reflexivity|].
    exact (commands_from_nth out 0 i Hcmds Hn).
  - apply nth_error_None in Hn. exfalso. lia.
Qed.

Lemma manoeuvre_command_sequence_witness :
  exists s' g' out,
    spin {| lidar_data := Some open_scan; state := BACKING_UP;
            backup_time := 0.0 |}
         (constant_random 0.9) (repeat Tick 20) = Ok (s', g', out) /\
    length out = 20 /\
    commands_from 0 out /\
    (forall i, i < 20 ->
       exists c, nth_error out i = Some c /\ command_at i c).
Proof.
  apply (@manoeuvre_command_sequence open_scan (constant_random 0.9)
           (repeat Tick 20)).
  - discriminate.
  - intros m Hin. apply repeat_spec in Hin. discriminate.
  - vm_compute. lia.
Defined.

(** ** Obstacles ahead *)

Lemma sector_samples_empty (msg : LaserScan) (window : list Z) (r : float) :
  ranges msg = [] -> In r (sector_samples msg window) -> r = 0.0%float.
Proof.
  intros Hr Hin. unfold sector_samples in Hin. apply in_map_iff in Hin.
  destruct Hin as (i & <- & _). rewrite Hr.
  destruct (Z.to_nat _); reflexivity.
Qed.

Lemma valid_sample_nonempty (msg : LaserScan) (window : list Z) (r : float) :
  In r (sector_samples msg window) -> valid_range msg r = true ->
  ranges msg <> [].
Proof.
  intros Hin Hv Hr. rewrite (sector_samples_empty msg window r Hr Hin) in Hv.
  apply valid_range_true in Hv. destruct Hv as (_ & H & _).
  vm_compute in H. discriminate.
Qed.

Lemma sector_min_le_sample (msg : LaserScan) (window : list Z) (r : float) :
  In r (sector_samples msg window) -> valid_range msg r = true ->
  valid_range msg (sector_min msg window) = true /\
  (sector_min msg window <=? r)%float = true.
Proof.
  intros Hin Hv.
  assert (Hf : In r (filter (valid_range msg) (sector_samples msg window))).
  { apply filter_In. auto. }
  destruct (sector_min_value msg window) as [[He _] | (Hm & _ & _ & Hle)].
  - rewrite He in Hf. destruct Hf.
  - split; [|exact (Hle r Hf)]. apply filter_In in Hm. tauto.
Qed.

Lemma summary_front (msg : LaserScan) :
  front (summary msg) = sector_min msg front_window.
Proof. unfold summary. cbn [front]. reflexivity. Qed.

(** A node that is exploring backs up as soon as one valid sample of the
    front sector is closer than 0.3 m, whatever the other samples are: the
    tick publishes [{linear = -0.1, angular = 0}], enters BACKING_UP and
    resets the timer. *)
Theorem close_front_sample_backs_up
  (self : SmartSafeMapper) (g : Random) (msg : LaserScan) (r : float) :
  lidar_data self = Some msg ->
  state self = EXPLORING ->
  In r (sector_samples msg front_window) ->
  valid_range msg r = true ->
  (r <? 0.3)%float = true ->
  control_loop self g =
  Ok ({| lidar_data := Some msg; state := BACKING_UP; backup_time := 0.0 |},
      g, Some {| linear_x := (- 0.1)%float; angular_z := 0.0 |}).
Proof.
  intros Hd Hst Hin Hv Hr.
  pose proof (valid_sample_nonempty msg front_window r Hin Hv) as Hne.
  pose proof (get_safe_directions_ok self Hd Hne) as Hs.
  destruct (sector_min_le_sample msg front_window r Hin Hv) as [_ Hle].
  rewrite (control_loop_exploring self g Hs Hst), summary_front, Hd.
  rewrite (@FloatOrder.leb_ltb_trans _ r 0.3%float Hle Hr). reflexivity.
Qed.

Lemma close_front_sample_backs_up_witness :
  control_loop {| lidar_data := Some wall_scan; state := EXPLORING;
                  backup_time := 2.0 |} (constant_random 0.1)
  = Ok ({| lidar_data := Some wall_scan; state := BACKING_UP;
           backup_time := 0.0 |}, constant_random 0.1,
        Some {| linear_x := (- 0.1)%float; angular_z := 0.0 |}).
Proof.
  apply (@close_front_sample_backs_up
           {| lidar_data := Some wall_scan; state := EXPLORING;
              backup_time := 2.0 |}
           (constant_random 0.1) wall_scan 0.2%float eq_refl eq_refl).
  - left. reflexivity.
  - vm_compute. reflexivity.
  - vm_compute. reflexivity.
Defined.

Lemma linear_x_not_forward :
  (- 0.1)%float <> 0.12%float /\ (0.12 * 0.3)%float <> 0.12%float.
Proof.
  split; intros H; apply (f_equal (fun x => (x <? 0.1)%float)) in H;
    vm_compute in H; discriminate.
Qed.

(** Conversely, when an exploring node publishes full speed ahead
    ([linear = 0.12]), no valid sample of the front sector is closer than
    0.7 m, and the node is left as it was. *)
Theorem full_speed_means_front_clear
  (self self' : SmartSafeMapper) (g g' : Random) (msg : LaserScan)
  (c : Twist) :
  lidar_data self = Some msg ->
  state self = EXPLORING ->
  control_loop self g = Ok (self', g', Some c) ->
  linear_x c = 0.12%float ->
  self' = self /\ angular_z c = 0.0%float /\
  forall r, In r (sector_samples msg front_window) ->
            valid_range msg r = true -> (0.7 <=? r)%float = true.
Proof.
  intros Hd Hst H Hlin.
  destruct (control_loop_inv self g H) as [(Hn & _) | (m & Hd' & Hne & Hs)];
    [congruence|].
  rewrite Hd in Hd'. injection Hd' as <-.
  rewrite (control_loop_exploring self g Hs Hst), summary_front in H.
  destruct linear_x_not_forward as [N1 N2].
  destruct (sector_min msg front_window <? 0.3)%float eqn:E3.
  { injection H as _ _ <-. cbn [linear_x] in Hlin. contradiction. }
  destruct (sector_min msg front_window <? 0.7)%float eqn:E7.
  { injection H as _ _ <-. cbn [linear_x] in Hlin. contradiction. }
  injection H as <- _ <-. split; [reflexivity|]. split; [reflexivity|].
  intros r Hin Hv.
  destruct (sector_min_le_sample msg front_window r Hin Hv) as [Hvm Hle].
  apply valid_range_true in Hvm. destruct Hvm as (Hnan & _).
  assert (H7 : (0.7 <=? sector_min msg front_window)%float = true).
  { apply FloatOrder.not_ltb_leb; [assumption | reflexivity | assumption]. }
  exact (FloatOrder.leb_trans H7 Hle).
Qed.

Lemma full_speed_means_front_clear_witness :
  {| lidar_data := Some open_scan; state := EXPLORING; backup_time := 0.0 |}
  = {| lidar_data := Some open_scan; state := EXPLORING; backup_time := 0.0 |}
  /\ angular_z {| linear_x := 0.12; angular_z := 0.0 |} = 0.0%float /\
  forall r, In r (sector_samples open_scan front_window) ->
            valid_range open_scan r = true -> (0.7 <=? r)%float = true.
Proof.
  apply (@full_speed_means_front_clear
           {| lidar_data := Some open_scan; state := EXPLORING;
              backup_time := 0.0 |}
           {| lidar_data := Some open_scan; state := EXPLORING;
              backup_time := 0.0 |}
           (constant_random 0.1) (constant_random 0.1) open_scan
           {| linear_x := 0.12; angular_z := 0.0 |} eq_refl eq_refl).
  - vm_compute. reflexivity.
  - reflexivity.
Defined.

(** Whatever its state, the node never publishes a forward velocity on a
    tick whose front minimum is below 0.3 m: it publishes [linear = -0.1]
    (EXPLORING, BACKING_UP) or [linear = 0] (TURNING). *)
Theorem no_forward_when_close
  (self : SmartSafeMapper) (g : Random) (s : Sectors) :
  get_safe_directions self = Ok (Some s) ->
  (front s <? 0.3)%float = true ->
  exists self' g' c,
    control_loop self g = Ok (self', g', Some c) /\
    (linear_x c = (- 0.1)%float \/ linear_x c = 0.0%float) /\
    (0 <? linear_x c)%float = false.
Proof.
  intros Hs Hf. destruct (state self) eqn:Hst.
  - rewrite (control_loop_exploring self g Hs Hst), Hf.
    do 3 eexists. split; [reflexivity|]. cbn [linear_x]. auto.
  - rewrite (control_loop_backing_up self g Hs Hst).
    do 3 eexists. split; [reflexivity|]. cbn [linear_x]. auto.
  - rewrite (control_loop_turning self g Hs Hst).
    do 3 eexists. split; [reflexivity|]. cbn [linear_x]. auto.
Qed.

Lemma no_forward_when_close_witness :
  exists self' g' c,
    control_loop {| lidar_data := Some wall_scan; state := TURNING;
                    backup_time := 2.0 |} (constant_random 0.9)
    = Ok (self', g', Some c) /\
    (linear_x c = (- 0.1)%float \/ linear_x c = 0.0%float) /\
    (0 <? linear_x c)%float = false.
Proof.
  apply (@no_forward_when_close
           {| lidar_data := Some wall_scan; state := TURNING;
              backup_time := 2.0 |} (constant_random 0.9)
           (summary wall_scan)).
  - vm_compute. reflexivity.
  - vm_compute. reflexivity.
Defined.

(** ** Which samples the node reads *)

Lemma sector_min_ext (msg1 msg2 : LaserScan) (window : list Z) :
  range_max msg1 = range_max msg2 ->
  sector_samples msg1 window = sector_samples msg2 window ->
  sector_min msg1 window = sector_min msg2 window.
Proof.
  intros Hm Hs. unfold sector_min. rewrite Hs, Hm.
  assert (Hv : forall r, valid_range msg1 r = valid_range msg2 r).
  { intros r. unfold valid_range. rewrite Hm. reflexivity. }
  rewrite (filter_ext _ _ Hv). reflexivity.
Qed.

Lemma summary_ext (msg1 msg2 : LaserScan) :
  sector_min msg1 front_window = sector_min msg2 front_window ->
  sector_min msg1 left_window = sector_min msg2 left_window ->
  sector_min msg1 right_window = sector_min msg2 right_window ->
  summary msg1 = summary msg2.
Proof.
  intros Hf Hl Hr. unfold summary. rewrite Hf, Hl, Hr. reflexivity.
Qed.

Lemma sector_samples_360 (msg1 msg2 : LaserScan) (window : list Z) :
  len (ranges msg1) = 360%Z -> len (ranges msg2) = 360%Z ->
  (forall i, In i window -> watched i) ->
  (forall i, watched i ->
     nth (Z.to_nat i) (ranges msg1) 0%float
     = nth (Z.to_nat i) (ranges msg2) 0%float) ->
  sector_samples msg1 window = sector_samples msg2 window.
Proof.
  intros H1 H2 Hw Hs. unfold sector_samples. rewrite H1, H2.
  apply map_ext_in. intros i Hi. pose proof (Hw i Hi) as Hwi.
  rewrite Z.mod_small by (unfold watched in Hwi; lia). apply Hs, Hwi.
Qed.

(** On 360-sample scans the node reads only the indices 0..29, 60..119,
    240..299 and 330..359: two scans with the same [range_max] that agree
    there give the same sectors and flags, and so the same command, however
    they differ behind the robot (120..239) and on the diagonals (30..59,
    300..329). *)
Theorem unwatched_samples_ignored
  (msg1 msg2 : LaserScan) (st : State) (t : float) (g : Random) :
  len (ranges msg1) = 360%Z ->
  len (ranges msg2) = 360%Z ->
  range_max msg1 = range_max msg2 ->
  (forall i, watched i ->
     nth (Z.to_nat i) (ranges msg1) 0%float
     = nth (Z.to_nat i) (ranges msg2) 0%float) ->
  get_safe_directions {| lidar_data := Some msg1; state := st;
                         backup_time := t |}
  = get_safe_directions {| lidar_data := Some msg2; state := st;
                           backup_time := t |} /\
  published (control_loop {| lidar_data := Some msg1; state := st;
                             backup_time := t |} g)
  = published (control_loop {| lidar_data := Some msg2; state := st;
                               backup_time := t |} g).
Proof.
  intros H1 H2 Hm Hs.
  assert (Hne1 : ranges msg1 <> []).
  { intros E. rewrite E in H1. discriminate. }
  assert (Hne2 : ranges msg2 <> []).
  { intros E. rewrite E in H2. discriminate. }
  assert (Hsum : summary msg1 = summary msg2).
  { apply summary_ext; apply sector_min_ext; try assumption;
      apply sector_samples_360; try assumption; intros i Hi; unfold watched.
    - apply In_front_window in Hi. lia.
    - apply (In_py_range i (lo := 60) (hi := 120)) in Hi; lia.
    - apply (In_py_range i (lo := 240) (hi := 300)) in Hi; lia. }
  set (self1 := {| lidar_data := Some msg1; state := st; backup_time := t |}).
  set (self2 := {| lidar_data := Some msg2; state := st; backup_time := t |}).
  pose proof (get_safe_directions_ok self1 eq_refl Hne1) as G1.
  pose proof (get_safe_directions_ok self2 eq_refl Hne2) as G2.
  rewrite Hsum in G1. split; [rewrite G1, G2; reflexivity|].
  destruct st.
  - rewrite (control_loop_exploring self1 g G1 eq_refl).
    rewrite (control_loop_exploring self2 g G2 eq_refl).
    destruct (front (summary msg2) <? 0.3)%float; [reflexivity|].
    destruct (front (summary msg2) <? 0.7)%float; reflexivity.
  - rewrite (control_loop_backing_up self1 g G1 eq_refl).
    rewrite (control_loop_backing_up self2 g G2 eq_refl). reflexivity.
  - rewrite (control_loop_turning self1 g G1 eq_refl).
    rewrite (control_loop_turning self2 g G2 eq_refl). reflexivity.
Qed.

Lemma nth_wall_behind (i : Z) :
  watched i ->
  nth (Z.to_nat i) (ranges open_scan) 0%float
  = nth (Z.to_nat i) (ranges wall_behind_scan) 0%float.
Proof.
  intros Hw. unfold watched in Hw.
  assert (Hi : (Z.to_nat i < 120 \/ 240 <= Z.to_nat i < 360)%nat) by lia.
  cbn [ranges open_scan wall_behind_scan].
  rewrite (nth_repeat_lt 1.0%float 0%float) by lia.
  destruct Hi as [Hi | Hi].
  - rewrite app_nth1 by (rewrite repeat_length; lia).
    rewrite nth_repeat_lt by lia. reflexivity.
  - rewrite app_nth2 by (rewrite repeat_length; lia).
    rewrite app_nth2 by (rewrite !repeat_length; lia).
    rewrite !repeat_length. rewrite nth_repeat_lt by lia. reflexivity.
Qed.

Lemma unwatched_samples_ignored_witness :
  published (control_loop {| lidar_data := Some open_scan; state := EXPLORING;
                             backup_time := 0.0 |} (constant_random 0.9))
  = published (control_loop {| lidar_data := Some wall_behind_scan;
                               state := EXPLORING; backup_time := 0.0 |}
                            (constant_random 0.9)).
Proof.
  apply (@unwatched_samples_ignored open_scan wall_behind_scan EXPLORING 0.0
           (constant_random 0.9)).
  - reflexivity.
  - reflexivity.
  - reflexivity.
  - exact nth_wall_behind.
Defined.

(** ** Scans shorter than 360 samples *)

Lemma side_windows_shifted :
  right_window = map (fun i => (i + 180)%Z) left_window.
Proof. vm_compute. reflexivity. Qed.

Lemma side_samples_coincide (msg : LaserScan) :
  (180 mod len (ranges msg) = 0)%Z ->
  sector_samples msg right_window = sector_samples msg left_window.
Proof.
  intros H. unfold sector_samples. rewrite side_windows_shifted, map_map.
  apply map_ext. intros i.
  rewrite Zplus_mod, H, Z.add_0_r, Zmod_mod. reflexivity.
Qed.

Lemma sub_self_not_above (x : float) : (0.3 <? x - x)%float = false.
Proof.
  destruct (0.3 <? x - x)%float eqn:E; [|reflexivity].
  rewrite (@FloatSub.sub_swap_exclusive x x E) in E. discriminate.
Qed.

(** When the number of samples divides 180 (a scan of 180, 90, 60, ...
    samples), [240 + k] and [60 + k] are the same index modulo [N]: the left
    and right sectors are the same samples, their minima are equal, neither
    side is ever better, and every steering decision is the random draw. *)
Theorem side_sectors_coincide
  (self : SmartSafeMapper) (msg : LaserScan) (s : Sectors) :
  lidar_data self = Some msg ->
  (180 mod len (ranges msg) = 0)%Z ->
  get_safe_directions self = Ok (Some s) ->
  left s = right s /\
  left_better s = false /\ right_better s = false /\ equal s = true.
Proof.
  intros Hd H180 Hs.
  destruct (get_safe_directions_inv self Hs) as (msg' & Hd' & _ & Hsum).
  rewrite Hd in Hd'. injection Hd' as <-.
  assert (Hlr : sector_min msg right_window = sector_min msg left_window).
  { unfold sector_min. rewrite (side_samples_coincide msg H180). reflexivity. }
  destruct (summary_flags msg) as [Hlb Hrb].
  pose proof (summary_equal msg) as Heq.
  assert (Hl : left (summary msg) = sector_min msg left_window)
    by (unfold summary; cbn [left]; reflexivity).
  assert (Hr : right (summary msg) = sector_min msg right_window)
    by (unfold summary; cbn [right]; reflexivity).
  rewrite <- Hsum in Hlb, Hrb, Heq, Hl, Hr.
  assert (E : left s = right s) by (rewrite Hl, Hr, Hlr; reflexivity).
  rewrite E in Hlb. rewrite E in Hrb.
  rewrite sub_self_not_above in Hlb, Hrb.
  rewrite Heq, Hlb, Hrb. auto.
Qed.

Lemma side_sectors_coincide_witness :
  left (summary half_resolution_scan) = right (summary half_resolution_scan) /\
  left_better (summary half_resolution_scan) = false /\
  right_better (summary half_resolution_scan) = false /\
  equal (summary half_resolution_scan) = true.
Proof.
  apply (@side_sectors_coincide
           {| lidar_data := Some half_resolution_scan; state := EXPLORING;
              backup_time := 0.0 |} half_resolution_scan
           (summary half_resolution_scan) eq_refl).
  - reflexivity.
  - vm_compute. reflexivity.
Defined.

(** ** A sensor that sees nothing *)

Lemma sector_samples_in_ranges (msg : LaserScan) (window : list Z) (r : float) :
  ranges msg <> [] -> In r (sector_samples msg window) -> In r (ranges msg).
Proof.
  intros Hne Hin. unfold sector_samples in Hin. apply in_map_iff in Hin.
  destruct Hin as (i & <- & _). apply nth_In.
  pose proof (Z.mod_pos_bound i (len (ranges msg)) (len_pos Hne)) as Hb.
  unfold len in *. lia.
Qed.

(** When no sample of the scan is valid (each is NaN, at most 0.1 or at
    least [range_max]) and [range_max] is at least 0.7, an exploring node
    takes every sector for clear: it publishes full speed ahead,
    [{linear = 0.12, angular = 0}], and stays as it is. *)
Theorem blind_scan_drives_straight
  (self : SmartSafeMapper) (g : Random) (msg : LaserScan) :
  lidar_data self = Some msg ->
  state self = EXPLORING ->
  ranges msg <> [] ->
  (forall r, In r (ranges msg) -> valid_range msg r = false) ->
  (0.7 <=? range_max msg)%float = true ->
  get_safe_directions self
  = Ok (Some {| front := range_max msg; left := range_max msg;
                right := range_max msg;
                left_better := false; right_better := false;
                equal := true |}) /\
  control_loop self g =
  Ok (self, g, Some {| linear_x := 0.12; angular_z := 0.0 |}).
Proof.
  intros Hd Hst Hne Hinv Hmax.
  assert (Hmin : forall w, sector_min msg w = range_max msg).
  { intros w. unfold sector_min.
    assert (Hf : filter (valid_range msg) (sector_samples msg w) = []).
    { pose proof (fun r => @sector_samples_in_ranges msg w r Hne) as Hin.
      induction (sector_samples msg w) as [|r rs IH]; [reflexivity|].
      cbn [filter]. rewrite (Hinv r) by (apply Hin; left; reflexivity).
      apply IH. intros r' Hr'. apply Hin. right. assumption. }
    rewrite Hf. reflexivity. }
  pose proof (get_safe_directions_ok self Hd Hne) as Hs.
  assert (Hsum : summary msg
                 = {| front := range_max msg; left := range_max msg;
                      right := range_max msg;
                      left_better := false; right_better := false;
                      equal := true |}).
  { unfold summary. rewrite !Hmin, sub_self_not_above. reflexivity. }
  rewrite Hsum in Hs. split; [exact Hs|].
  rewrite (control_loop_exploring self g Hs Hst). cbn [front].
  destruct (leb_safe_distance Hmax) as [-> ->]. reflexivity.
Qed.

Lemma blind_scan_drives_straight_witness :
  control_loop {| lidar_data := Some unbounded_scan; state := EXPLORING;
                  backup_time := 0.0 |} (constant_random 0.9)
  = Ok ({| lidar_data := Some unbounded_scan; state := EXPLORING;
           backup_time := 0.0 |}, constant_random 0.9,
        Some {| linear_x := 0.12; angular_z := 0.0 |}).
Proof.
  apply (@blind_scan_drives_straight
           {| lidar_data := Some unbounded_scan; state := EXPLORING;
              backup_time := 0.0 |} (constant_random 0.9) unbounded_scan
           eq_refl eq_refl).
  - discriminate.
  - intros r Hin. apply repeat_spec in Hin. subst r. reflexivity.
  - reflexivity.
Defined.

(** ** [main]: interrupt and crash *)

Lemma spin_log_ok (evs : list event) :
  forall (self s' : SmartSafeMapper) (g g' : Random) (out : list Twist),
  spin self g evs = Ok (s', g', out) ->
  spin_log self g evs = (out, Ok (s', g')).
Proof.
  induction evs as [|e evs IH]; intros self s' g g' out H.
  - injection H as <- <- <-. reflexivity.
  - destruct e as [m|].
    + exact (IH _ _ _ _ _ H).
    + destruct (spin_tick_inv self g evs H)
        as (self1 & g1 & o & outs & Hc & Hs & ->).
      cbn [spin_log]. rewrite Hc, (IH _ _ _ _ _ Hs). reflexivity.
Qed.

Lemma spin_log_app (pre : list event) :
  forall (self s1 : SmartSafeMapper) (g g1 : Random) (out : list Twist)
         (post : list event),
  spin self g pre = Ok (s1, g1, out) ->
  spin_log self g (pre ++ post)
  = (out ++ fst (spin_log s1 g1 post), snd (spin_log s1 g1 post)).
Proof.
  induction pre as [|e pre IH]; intros self s1 g g1 out post H.
  - injection H as <- <- <-. cbn [app]. destruct (spin_log self g post).
    reflexivity.
  - destruct e as [m|].
    + exact (IH _ _ _ _ _ post H).
    + destruct (spin_tick_inv self g pre H)
        as (self2 & g2 & o & outs & Hc & Hs & ->).
      cbn [app spin_log]. rewrite Hc, (IH _ _ _ _ _ post Hs).
      destruct o; reflexivity.
Qed.

Lemma allowed_command_moves (c : Twist) : allowed_command c -> c <> stop_msg.
Proof.
  unfold stop_msg.
  intros [-> | [-> | [_ [Ha | Ha]]]] E.
  - apply (f_equal (fun c => Prim2SF (linear_x c))) in E.
    vm_compute in E. discriminate.
  - apply (f_equal (fun c => Prim2SF (linear_x c))) in E.
    vm_compute in E. discriminate.
  - rewrite E in Ha. apply (f_equal Prim2SF) in Ha.
    vm_compute in Ha. discriminate.
  - rewrite E in Ha. apply (f_equal Prim2SF) in Ha.
    vm_compute in Ha. discriminate.
Qed.

(** When [main] is interrupted after a trace on which no tick raised, no
    exception leaves it and the last message on [/cmd_vel] is the stop
    message [Twist()]; before it come the commands of the ticks, none of
    which is a stop: while it runs, the node never commands the robot to
    stand still. *)
Theorem main_interrupt_stops
  (g g' : Random) (evs : list event) (s' : SmartSafeMapper)
  (out : list Twist) :
  spin init g evs = Ok (s', g', out) ->
  main g evs = (out ++ [stop_msg], None) /\
  last (fst (main g evs)) {| linear_x := 0.12; angular_z := 0.0 |} = stop_msg /\
  ~ In stop_msg out.
Proof.
  intros Hs. unfold main. rewrite (spin_log_ok evs init g Hs).
  split; [reflexivity|]. split; [cbn [fst]; apply last_last|].
  intros Hin.
  pose proof (spin_allowed evs init g Hs) as Hall.
  rewrite Forall_forall in Hall.
  exact (allowed_command_moves (Hall _ Hin) eq_refl).
Qed.

Lemma main_interrupt_stops_witness :
  main (constant_random 0.9) [Tick; Scan open_scan; Tick; Tick]
  = ([{| linear_x := 0.12; angular_z := 0.0 |};
      {| linear_x := 0.12; angular_z := 0.0 |}] ++ [stop_msg], None).
Proof.
  apply (@main_interrupt_stops (constant_random 0.9) (constant_random 0.9)
           [Tick; Scan open_scan; Tick; Tick]
           {| lidar_data := Some open_scan; state := EXPLORING;
              backup_time := 0.0 |}
           [{| linear_x := 0.12; angular_z := 0.0 |};
            {| linear_x := 0.12; angular_z := 0.0 |}]).
  vm_compute. reflexivity.
Defined.

(** When a scan without samples is delivered and the timer fires, [main]
    ends with [ZeroDivisionError] and publishes no stop message: what is on
    [/cmd_vel] is what the ticks before had published, so the robot is left
    with the last of their commands, and none of them is a stop. *)
Theorem main_crash_publishes_no_stop
  (g g1 : Random) (pre rest : list event) (s1 : SmartSafeMapper)
  (out : list Twist) (rmax : float) :
  spin init g pre = Ok (s1, g1, out) ->
  main g (pre ++ Scan (empty_scan rmax) :: Tick :: rest)
  = (out, Some ZeroDivisionError) /\
  ~ In stop_msg out.
Proof.
  intros Hs. split.
  - unfold main.
    rewrite (@spin_log_app pre init s1 g g1 out
               (Scan (empty_scan rmax) :: Tick :: rest) Hs).
    cbn [spin_log].
    rewrite (control_loop_raises
               (lidar_callback s1 (empty_scan rmax)) g1
               (get_safe_directions_empty
                  (lidar_callback s1 (empty_scan rmax)) eq_refl eq_refl)).
    cbn [fst snd]. rewrite app_nil_r. reflexivity.
  - intros Hin.
    pose proof (spin_allowed pre init g Hs) as Hall.
    rewrite Forall_forall in Hall.
    exact (allowed_command_moves (Hall _ Hin) eq_refl).
Qed.

Lemma main_crash_publishes_no_stop_witness :
  main (constant_random 0.9)
       ([Scan open_scan; Tick] ++ Scan (empty_scan 3.5) :: Tick :: [Tick])
  = ([{| linear_x := 0.12; angular_z := 0.0 |}], Some ZeroDivisionError).
Proof.
  apply (@main_crash_publishes_no_stop
           (constant_random 0.9) (constant_random 0.9)
           [Scan open_scan; Tick] [Tick]
           {| lidar_data := Some open_scan; state := EXPLORING;
              backup_time := 0.0 |}
           [{| linear_x := 0.12; angular_z := 0.0 |}] 3.5%float).
  vm_compute. reflexivity.
Defined.

(** ** A whole manoeuvre, from the obstacle to exploring again *)

(** An exploring node that finds the front closer than 0.3 m is exploring
    again exactly 36 ticks later, whatever its timer held before and whatever
    scans (with at least one sample) arrive meanwhile.  Of the 36 commands
    the first 16 are the backup command, the triggering tick's included, and
    the last 20 are turns on the spot. *)
Theorem obstacle_to_exploring
  (self : SmartSafeMapper) (g : Random) (msg : LaserScan) (s : Sectors)
  (evs : list event) :
  lidar_data self = Some msg ->
  state self = EXPLORING ->
  get_safe_directions self = Ok (Some s) ->
  (front s <? 0.3)%float = true ->
  scans_nonempty evs ->
  count_ticks evs = 35 ->
  exists s' g' out,
    spin self g (Tick :: evs) = Ok (s', g', out) /\
    state s' = EXPLORING /\
    length out = 36 /\
    forall i c, nth_error out i = Some c ->
      if i <? 16
      then c = {| linear_x := (- 0.1)%float; angular_z := 0.0 |}
      else linear_x c = 0.0%float /\
           (angular_z c = 0.8%float \/ angular_z c = (- 0.8)%float).
Proof.
  intros Hd Hst Hs Hf Hne Hk.
  destruct (get_safe_directions_inv self Hs) as (msg' & Hd' & Hr & _).
  rewrite Hd in Hd'. injection Hd' as <-.
  set (entry := {| lidar_data := Some msg; state := BACKING_UP;
                   backup_time := 0.0 |}).
  assert (Hc : control_loop self g
               = Ok (entry, g,
                     Some {| linear_x := (- 0.1)%float; angular_z := 0.0 |})).
  { rewrite (control_loop_exploring self g Hs Hst), Hf, Hd. reflexivity. }
  assert (Hm : manoeuvre 0 entry).
  { split; [exists msg; auto|]. split; reflexivity. }
  assert (Hk' : 0 + count_ticks evs <= 35) by (rewrite Hk; apply Nat.le_refl).
  destruct (@manoeuvre_spin evs 0 entry g Hm Hne Hk')
    as (s' & g' & out & Hsp & Hl & (_ & Hst' & _)).
  pose proof (@manoeuvre_commands evs 0 entry s' g g' out Hm Hne Hk' Hsp)
    as Hcmds.
  exists s', g', ({| linear_x := (- 0.1)%float; angular_z := 0.0 |} :: out).
  cbn [spin]. rewrite Hc. cbn [bind]. rewrite Hsp. cbn [bind].
  split; [reflexivity|]. split.
  { rewrite Hst'. cbn [Nat.add]. rewrite Hk. reflexivity. }
  split.
  { cbn [length]. rewrite Hl, Hk. reflexivity. }
  intros i c Hn. destruct i as [|i].
  - injection Hn as <-. reflexivity.
  - cbn [nth_error] in Hn.
    pose proof (commands_from_nth out 0 i Hcmds Hn) as Hat.
    cbn [Nat.add] in Hat. unfold command_at in Hat.
    change (S i <? 16) with (i <? 15). exact Hat.
Qed.

Lemma obstacle_to_exploring_witness :
  exists s' g' out,
    spin {| lidar_data := Some wall_scan; state := EXPLORING;
            backup_time := 2.0 |} (constant_random 0.9)
         (Tick :: repeat Tick 35) = Ok (s', g', out) /\
    state s' = EXPLORING /\
    length out = 36 /\
    forall i c, nth_error out i = Some c ->
      if i <? 16
      then c = {| linear_x := (- 0.1)%float; angular_z := 0.0 |}
      else linear_x c = 0.0%float /\
           (angular_z c = 0.8%float \/ angular_z c = (- 0.8)%float).
Proof.
  apply (@obstacle_to_exploring
           {| lidar_data := Some wall_scan; state := EXPLORING;
              backup_time := 2.0 |} (constant_random 0.9) wall_scan
           (summary wall_scan) (repeat Tick 35) eq_refl eq_refl).
  - vm_compute. reflexivity.
  - vm_compute. reflexivity.
  - intros m Hin. apply repeat_spec in Hin. discriminate.
  - vm_compute. reflexivity.
Defined.
